(** * RealNVP: the affine coupling flow of [src/RealNVP.py]

    A shallow embedding of the [realnvp] class (constructor, [forward],
    [inverse], [log_likelihood]) over exact real arithmetic, together with
    the tensor operations of TensorFlow/NumPy that its expressions use:
    elementwise arithmetic with broadcasting on tensors of rank at most two,
    [tf.exp], [tf.zeros], [tf.reduce_sum(_, [1])] and list indexing.

    Floating point is replaced by the reals of the Standard Library, so
    every equation below is an equation of exact arithmetic. *)

From Stdlib Require Import Reals Lra ZArith.
From Stdlib Require Import Floats.SpecFloat.
From stdpp Require Import base list.

Local Open Scope R_scope.

(** ** Exceptions and results

    The two exceptions the modelled code can raise: TensorFlow's
    [InvalidArgumentError] for shapes that do not broadcast, and Python's
    [IndexError] for [self.layers[i]] past the end of the list. *)

Inductive exn : Type :=
  | InvalidArgumentError
  | IndexError.

Inductive result (A : Type) : Type :=
  | Ok (a : A)
  | Raise (e : exn).

Arguments Ok {A} a.
Arguments Raise {A} e.

#[global] Instance result_ret : MRet result := fun A a => Ok a.

#[global] Instance result_bind : MBind result := fun A B f m =>
  match m with
  | Ok a => f a
  | Raise e => Raise e
  end.

(** ** Tensors

    A rank-1 tensor of shape [(D,)] is a list of reals, a rank-2 tensor of
    shape [(B, D)] a list of [B] rows.  A tensor with no row carries no
    column count. *)

Abbreviation vec := (list R).
Abbreviation batch := (list (list R)).

Section broadcast.
Context {A B C : Type} (f : A -> B -> result C).

(** Elementwise application along one axis of equal size. *)
Fixpoint zipM (xs : list A) (ys : list B) : result (list C) :=
  match xs, ys with
  | x :: xs', y :: ys' =>
      c ← f x y; cs ← zipM xs' ys'; Ok (c :: cs)
  | _, _ => Ok []
  end.

Fixpoint forM {X : Type} (g : X -> result C) (xs : list X)
  : result (list C) :=
  match xs with
  | [] => Ok []
  | x :: xs' => c ← g x; cs ← forM g xs'; Ok (c :: cs)
  end.

(** NumPy broadcasting along one axis: sizes must agree, or one of them
    is 1 and is stretched; anything else is an error. *)
Definition broadcast (xs : list A) (ys : list B) : result (list C) :=
  if decide (length xs = length ys) then zipM xs ys
  else match xs, ys with
       | [x], _ => forM (f x) ys
       | _, [y] => forM (fun x => f x y) xs
       | _, _ => Raise InvalidArgumentError
       end.
End broadcast.

(** A binary operator of the reals lifted to rank 1 and to rank 2. *)
Definition vop (op : R -> R -> R) : vec -> vec -> result vec :=
  broadcast (fun a b => Ok (op a b)).

Definition top (op : R -> R -> R) : batch -> batch -> result batch :=
  broadcast (vop op).

(** A rank-1 operand against a rank-2 one is a tensor of one row. *)
Definition row (m : vec) : batch := [m].

Definition texp (s : batch) : batch := (fun r : vec => exp <$> r) <$> s.
Definition tneg (s : batch) : batch := (fun r : vec => Ropp <$> r) <$> s.

(** [tf.zeros(n)] and [tf.reduce_sum(s, [1])]. *)
Definition zeros (n : nat) : vec := replicate n 0.
Definition reduce_sum (s : batch) : vec := foldr Rplus 0 <$> s.

(** [xs[i]] for a Python list and an index of [range]. *)
Definition getitem {A : Type} (xs : list A) (i : nat) : result A :=
  match xs !! i with
  | Some x => Ok x
  | None => Raise IndexError
  end.

(** Monadic left fold: the body of a [for] loop run over its index list,
    stopping at the first exception. *)
Fixpoint for_loop {S : Type} (body : nat -> S -> result S)
    (idx : list nat) (st : S) : result S :=
  match idx with
  | [] => Ok st
  | i :: idx' => st' ← body i st; for_loop body idx' st'
  end.

(** ** The collaborators of the flow

    The feature network [s_t] is two stacks of Keras [Dense] layers with
    trained weights; the flow uses it only through its call, which maps a
    masked batch to the pair [(s, t)], so it is kept as an arbitrary
    function.  The latent distribution is used only through [log_prob]. *)

Record s_t : Type := { call : batch -> batch * batch }.

Record distribution : Type := { log_prob : batch -> vec }.

(** ** The class [realnvp] *)

Record realnvp : Type := {
  num_cl : nat;
  distr : distribution;
  masks : list vec;
  layers : list s_t
}.

(** [realnvp.__init__]: four assignments, no check of its arguments. *)
Definition realnvp_init (layers0 : list s_t) (masks0 : list vec)
    (distr0 : distribution) : result realnvp :=
  Ok {| num_cl := length masks0;
        distr := distr0;
        masks := masks0;
        layers := layers0 |}.

(** The right-hand side of the assignment to [x] in [realnvp.forward]:
    [x_masked + reversed_mask * (x * tf.exp(s) * reversed_mask
                                 + t * reversed_mask)]. *)
Definition forward_expr (x_masked : batch) (reversed_mask : vec)
    (x s t : batch) : result batch :=
  xe ← top Rmult x (texp s);
  xer ← top Rmult xe (row reversed_mask);
  tr ← top Rmult t (row reversed_mask);
  inner ← top Rplus xer tr;
  scaled ← top Rmult (row reversed_mask) inner;
  top Rplus x_masked scaled.

(** The right-hand side of the assignment to [y] in [realnvp.inverse]:
    [reversed_mask * (y - t * reversed_mask)
       * tf.exp(-(s * reversed_mask)) + y_masked]. *)
Definition inverse_expr (y_masked : batch) (reversed_mask : vec)
    (y s t : batch) : result batch :=
  tr ← top Rmult t (row reversed_mask);
  yt ← top Rminus y tr;
  ryt ← top Rmult (row reversed_mask) yt;
  sr ← top Rmult s (row reversed_mask);
  prod ← top Rmult ryt (texp (tneg sr));
  top Rplus prod y_masked.

(** Body of the loop of [realnvp.forward], on the loop state
    [(x, log_det_for)]. *)
Definition forward_body (self : realnvp) (i : nat) (st : batch * vec)
    : result (batch * vec) :=
  let '(x, log_det_for) := st in
  mask ← getitem (masks self) i;
  x_masked ← top Rmult x (row mask);
  let reversed_mask := Rminus 1 <$> mask in
  layer ← getitem (layers self) i;
  let '(s, t) := call layer x_masked in
  x' ← forward_expr x_masked reversed_mask x s t;
  log_det_for' ← vop Rplus log_det_for (reduce_sum s);
  Ok (x', log_det_for').

Definition forward (self : realnvp) (y : batch) : result (batch * vec) :=
  for_loop (forward_body self) (seq 0 (num_cl self)) (y, zeros (length y)).

(** Body of the loop of [realnvp.inverse], on the loop state
    [(y, log_det_inv)]. *)
Definition inverse_body (self : realnvp) (i : nat) (st : batch * vec)
    : result (batch * vec) :=
  let '(y, log_det_inv) := st in
  mask ← getitem (masks self) i;
  y_masked ← top Rmult y (row mask);
  let reversed_mask := Rminus 1 <$> mask in
  layer ← getitem (layers self) i;
  let '(s, t) := call layer y_masked in
  y' ← inverse_expr y_masked reversed_mask y s t;
  log_det_inv' ← vop Rminus log_det_inv (reduce_sum s);
  Ok (y', log_det_inv').

Definition inverse (self : realnvp) (x : batch) : result (batch * vec) :=
  for_loop (inverse_body self) (reverse (seq 0 (num_cl self)))
    (x, zeros (length x)).

Definition log_likelihood (self : realnvp) (x : batch) : result vec :=
  '(y, logdet) ← inverse self x;
  vop Rplus (log_prob (distr self) y) logdet.

(** * Predicates and auxiliary definitions *)

(** ** Shapes and tabulated tensors *)

(** [shape B D x]: [x] has [B] rows of [D] coordinates each. *)
Definition shape (B D : nat) (x : batch) : Prop :=
  length x = B /\ Forall (fun r : vec => length r = D) x.

(** Entry [(b, j)] of a batch and coordinate [j] of a vector. *)
Definition coord (v : vec) (j : nat) : R := nth j v 0.
Definition ent (x : batch) (b j : nat) : R := coord (nth b x []) j.

(** The list [g 0, ..., g (n-1)]. *)
Definition tab {A : Type} (n : nat) (g : nat -> A) : list A :=
  g <$> seq 0 n.

Definition tab2 (B D : nat) (g : nat -> nat -> R) : batch :=
  tab B (fun b => tab D (g b)).

(** A mask is binary when each of its entries is 0 or 1. *)
Definition binary (m : vec) : Prop := Forall (fun v => v = 0 \/ v = 1) m.

(** The contract of a feature network on batches of shape [(B, D)]: both
    outputs have the shape of the input. *)
Definition s_t_contract (B D : nat) (layer : s_t) : Prop :=
  forall x : batch, shape B D x ->
    shape B D (call layer x).1 /\ shape B D (call layer x).2.

(** ** Entries of one coupling step *)

(** The scale output summed over all coordinates of sample [b]. *)
Definition row_sum (D : nat) (sigma : nat -> nat -> R) (b : nat) : R :=
  foldr Rplus 0 (tab D (sigma b)).

(** The entries computed by the two loop bodies, as functions of the
    entries of the state, of the mask and of the network's outputs. *)
Definition forward_entry (mu : nat -> R) (g sigma tau : nat -> nat -> R)
    (b j : nat) : R :=
  g b j * mu j
  + (1 - mu j) * (g b j * exp (sigma b j) * (1 - mu j) + tau b j * (1 - mu j)).

Definition inverse_entry (mu : nat -> R) (g sigma tau : nat -> nat -> R)
    (b j : nat) : R :=
  (1 - mu j) * (g b j - tau b j * (1 - mu j))
    * exp (- (sigma b j * (1 - mu j)))
  + g b j * mu j.

Definition masked_entry (mu : nat -> R) (g : nat -> nat -> R)
    (b j : nat) : R := g b j * mu j.

(** ** Well-formed flows *)

(** Index [i] names a binary mask of dimension [D] and a feature network
    that keeps the shape [(B, D)]. *)
Definition valid_index (self : realnvp) (B D i : nat) : Prop :=
  exists (m : vec) (layer : s_t),
    masks self !! i = Some m /\ length m = D /\ binary m /\
    layers self !! i = Some layer /\ s_t_contract B D layer.

(** The hypotheses under which a flow is well formed for batches of shape
    [(B, D)]: binary masks of dimension [D], one feature network per mask,
    each keeping the shape. *)
Definition well_formed (B D : nat) (layers0 : list s_t)
    (masks0 : list vec) : Prop :=
  Forall binary masks0 /\
  Forall (fun m : vec => length m = D) masks0 /\
  (length masks0 <= length layers0)%nat /\
  Forall (s_t_contract B D) layers0.

(** ** Definitions that follow the specification *)

(** Follows the specification (section 4.2, step 3), not the source:
    [y = x_masked + (1 - m) * (x * exp(s) + t)], one multiplication by the
    complement of the mask. *)
Definition spec_forward_expr (x_masked : batch) (reversed_mask : vec)
    (x s t : batch) : result batch :=
  xe ← top Rmult x (texp s);
  affine ← top Rplus xe t;
  scaled ← top Rmult (row reversed_mask) affine;
  top Rplus x_masked scaled.

(** Follows the specification (section 4.2, step 4), not the source: the
    sum of [s] over the unmasked coordinates, those where the mask is 0. *)
Definition spec_unmasked_sum (m s : vec) : R :=
  foldr Rplus 0
    (zip_with (fun mj sj => if Req_dec_T mj 0 then sj else 0) m s).

(** The flow of the specification (sections 4.2 and 4.3): a coupling layer
    is a mask with its feature network; its forward and inverse transforms
    return the transformed batch and the layer's own log-determinant (for
    the inverse, already negated); a flow folds them over its layers from
    a log-determinant of zero, adding the layers' terms. *)
Definition coupling_forward (L : vec * s_t) (x : batch)
    : result (batch * vec) :=
  let '(mask, layer) := L in
  x_masked ← top Rmult x (row mask);
  let reversed_mask := Rminus 1 <$> mask in
  let '(s, t) := call layer x_masked in
  y ← forward_expr x_masked reversed_mask x s t;
  Ok (y, reduce_sum s).

Definition coupling_inverse (L : vec * s_t) (y : batch)
    : result (batch * vec) :=
  let '(mask, layer) := L in
  y_masked ← top Rmult y (row mask);
  let reversed_mask := Rminus 1 <$> mask in
  let '(s, t) := call layer y_masked in
  x ← inverse_expr y_masked reversed_mask y s t;
  Ok (x, Ropp <$> reduce_sum s).

Definition accumulate (f : batch -> result (batch * vec))
    (st : batch * vec) : result (batch * vec) :=
  let '(x, log_det) := st in
  '(y, d) ← f x;
  log_det' ← vop Rplus log_det d;
  Ok (y, log_det').

Fixpoint spec_flow (step : vec * s_t -> batch -> result (batch * vec))
    (Ls : list (vec * s_t)) (st : batch * vec) : result (batch * vec) :=
  match Ls with
  | [] => Ok st
  | L :: Ls' => st' ← accumulate (step L) st; spec_flow step Ls' st'
  end.

Definition coupling_layers (self : realnvp) : list (vec * s_t) :=
  zip (masks self) (layers self).

Definition spec_forward (self : realnvp) (z : batch)
    : result (batch * vec) :=
  spec_flow coupling_forward (coupling_layers self) (z, zeros (length z)).

Definition spec_inverse (self : realnvp) (x : batch)
    : result (batch * vec) :=
  spec_flow coupling_inverse (reverse (coupling_layers self))
    (x, zeros (length x)).

(** Index [i] names the coupling layer [L]. *)
Definition names (self : realnvp) (i : nat) (L : vec * s_t) : Prop :=
  masks self !! i = Some L.1 /\ layers self !! i = Some L.2.

(** ** Concrete networks, distributions and flows *)

(** A feature network whose outputs do not depend on its input: scale row
    [s0] and translation row [c] for every sample of the batch. *)
Definition const_net (s0 c : vec) : s_t :=
  {| call := fun x : batch =>
               ((fun _ : vec => s0) <$> x, (fun _ : vec => c) <$> x) |}.

(** The standard normal stands in for a latent distribution where one is
    needed: [log_prob] of a row is minus half its squared norm, up to the
    additive constant, which is left out. *)
Definition normal_diag : distribution :=
  {| log_prob := fun y : batch =>
       (fun r : vec => - (foldr Rplus 0 ((fun v => v * v) <$> r)) / 2) <$> y |}.

(** A feature network that returns its masked input as scale and as
    translation. *)
Definition echo_net : s_t := {| call := fun x : batch => (x, x) |}.

(** The masks of the source:
    [np.array([[0, 1], [1, 0]] * (num_cl // 2))] with [num_cl = 6]. *)
Definition source_masks : list vec :=
  [[0; 1]; [1; 0]; [0; 1]; [1; 0]; [0; 1]; [1; 0]].

Definition echo_flow : realnvp :=
  {| num_cl := 6; distr := normal_diag; masks := source_masks;
     layers := replicate 6 echo_net |}.

(** The two-layer toy flow of the end-to-end scenario: masks [[0,1]] and
    [[1,0]], scale 0 everywhere, translation [c0] in layer 0 and [c1] in
    layer 1. *)
Definition toy_masks : list vec := [[0; 1]; [1; 0]].

(** ** Flows on well-shaped operands *)

(** Index [i] names a mask of dimension [D], binary or not, and a feature
    network that keeps the shape [(B, D)]. *)
Definition shaped_index (self : realnvp) (B D i : nat) : Prop :=
  exists (m : vec) (layer : s_t),
    masks self !! i = Some m /\ length m = D /\
    layers self !! i = Some layer /\ s_t_contract B D layer.

(** The shape conditions of [well_formed], without the one on the values
    of the masks. *)
Definition well_shaped (B D : nat) (layers0 : list s_t)
    (masks0 : list vec) : Prop :=
  Forall (fun m : vec => length m = D) masks0 /\
  (length masks0 <= length layers0)%nat /\
  Forall (s_t_contract B D) layers0.

(** ** The masks of the script *)

(** [np.array([[0, 1], [1, 0]] * (num_cl // 2))]: the two masks repeated
    [num_cl // 2] times. *)
Definition script_masks (num_cl : nat) : list vec :=
  mjoin (replicate (num_cl / 2)%nat [[0; 1]; [1; 0]]).

(** ** The feature network [s_t]

    Keras [Dense(units, activation)] computes
    [activation(inputs @ kernel + bias)], with a kernel of shape
    [(input_dim, units)] and a bias of shape [(units,)] that are created
    on the first call and changed by training; the regularizer only adds
    to the loss. *)

Definition relu (v : R) : R := Rmax v 0.
Definition linear (v : R) : R := v.

Record Dense : Type := {
  units : nat;
  activation : R -> R;
  kernel : list vec;
  bias : vec
}.

(** One row of [inputs @ kernel]: the rows of the kernel scaled by the
    entries of the input row, added up. *)
Definition matvec (n : nat) (r : vec) (W : list vec) : vec :=
  foldr (fun p acc => zip_with Rplus (Rmult p.1 <$> p.2) acc)
    (zeros n) (zip r W).

(** [inputs @ kernel] with [n] columns in the kernel: the inner dimensions
    must agree.  Keras rejects an input of another dimension; the class of
    the exception it raises is not modelled, [InvalidArgumentError] stands
    for it. *)
Definition matmul (x : batch) (W : list vec) (n : nat) : result batch :=
  forM (fun r : vec =>
          if decide (length r = length W) then Ok (matvec n r W)
          else Raise InvalidArgumentError) x.

(** An activation applied to every entry. *)
Definition tmap (f : R -> R) (z : batch) : batch :=
  (fun r : vec => f <$> r) <$> z.

Definition dense_call (l : Dense) (inputs : batch) : result batch :=
  y ← matmul inputs (kernel l) (units l);
  z ← top Rplus y (row (bias l));
  Ok (tmap (activation l) z).

Record s_t_net : Type := {
  layer1 : Dense; layer2 : Dense; layer3 : Dense; layer4 : Dense;
  layer5 : Dense;
  layer6 : Dense; layer7 : Dense; layer8 : Dense; layer9 : Dense;
  layer10 : Dense
}.

(** [s_t.call]. *)
Definition s_t_call (self : s_t_net) (x : batch) : result (batch * batch) :=
  y ← dense_call (layer1 self) x;
  y ← dense_call (layer2 self) y;
  y ← dense_call (layer3 self) y;
  y ← dense_call (layer4 self) y;
  t ← dense_call (layer5 self) y;
  z ← dense_call (layer6 self) x;
  z ← dense_call (layer7 self) z;
  z ← dense_call (layer8 self) z;
  z ← dense_call (layer9 self) z;
  s ← dense_call (layer10 self) z;
  Ok (s, t).

(** What the network computes on one sample: a [Dense] layer on a row,
    and the two stacks of [s_t.call] on a row. *)
Definition dense_row (l : Dense) (r : vec) : vec :=
  activation l <$> zip_with Rplus (matvec (units l) r (kernel l)) (bias l).

Definition t_row (self : s_t_net) (r : vec) : vec :=
  dense_row (layer5 self) (dense_row (layer4 self) (dense_row (layer3 self)
    (dense_row (layer2 self) (dense_row (layer1 self) r)))).

Definition s_row (self : s_t_net) (r : vec) : vec :=
  dense_row (layer10 self) (dense_row (layer9 self) (dense_row (layer8 self)
    (dense_row (layer7 self) (dense_row (layer6 self) r)))).

(** A [Dense(u, activation=act)] layer whose weights were created for
    inputs of dimension [input_dim]. *)
Definition is_dense (u : nat) (act : R -> R) (input_dim : nat)
    (l : Dense) : Prop :=
  units l = u /\ activation l = act /\
  length (kernel l) = input_dim /\
  Forall (fun r : vec => length r = u) (kernel l) /\
  length (bias l) = u.

(** What [s_t.__init__(input_shape, nweights)] followed by a first call on
    inputs of dimension [input_dim] creates: four [relu] layers of
    [nweights] units and a linear layer of [input_shape] units for [t],
    four [relu] layers and a [tanh] layer of [input_shape] units for
    [s]. *)
Definition s_t_built (input_dim input_shape nweights : nat)
    (self : s_t_net) : Prop :=
  is_dense nweights relu input_dim (layer1 self) /\
  is_dense nweights relu nweights (layer2 self) /\
  is_dense nweights relu nweights (layer3 self) /\
  is_dense nweights relu nweights (layer4 self) /\
  is_dense input_shape linear nweights (layer5 self) /\
  is_dense nweights relu input_dim (layer6 self) /\
  is_dense nweights relu nweights (layer7 self) /\
  is_dense nweights relu nweights (layer8 self) /\
  is_dense nweights relu nweights (layer9 self) /\
  is_dense input_shape tanh nweights (layer10 self).

(** The feature network [layer] of a flow is the network [net]: on batches
    of shape [(B, D)] its call returns what [s_t.call] returns. *)
Definition implements (B D : nat) (layer : s_t) (net : s_t_net) : Prop :=
  forall x : batch, shape B D x -> s_t_call net x = Ok (call layer x).

(** The scale output of a feature network lies strictly between -1 and 1
    on batches of shape [(B, D)]. *)
Definition scale_bounded (B D : nat) (layer : s_t) : Prop :=
  forall (x : batch) b j, shape B D x ->
    -1 < ent (call layer x).1 b j < 1.

(** Index [i] names a mask of dimension [D] and a feature network that
    keeps the shape [(B, D)] and whose scale output is bounded. *)
Definition bounded_index (self : realnvp) (B D i : nat) : Prop :=
  exists (m : vec) (layer : s_t),
    masks self !! i = Some m /\ length m = D /\
    layers self !! i = Some layer /\
    s_t_contract B D layer /\ scale_bounded B D layer.

(** A network as a feature network of a flow; where [s_t.call] raises,
    the stand-in value is the empty pair. *)
Definition as_layer (net : s_t_net) : s_t :=
  {| call := fun x : batch =>
       match s_t_call net x with
       | Ok st => st
       | Raise _ => ([], [])
       end |}.

(** A small network: one unit in the hidden layers, two inputs and two
    outputs. *)
Definition small_dense (u : nat) (act : R -> R) (W : list vec) (b : vec)
    : Dense :=
  {| units := u; activation := act; kernel := W; bias := b |}.

Definition small_net : s_t_net :=
  {| layer1 := small_dense 1 relu [[1]; [2]] [0];
     layer2 := small_dense 1 relu [[1]] [1];
     layer3 := small_dense 1 relu [[2]] [0];
     layer4 := small_dense 1 relu [[1]] [0];
     layer5 := small_dense 2 linear [[1; 2]] [0; 1];
     layer6 := small_dense 1 relu [[1]; [1]] [0];
     layer7 := small_dense 1 relu [[1]] [0];
     layer8 := small_dense 1 relu [[1]] [0];
     layer9 := small_dense 1 relu [[1]] [0];
     layer10 := small_dense 2 tanh [[1; 1]] [0; 0] |}.

(** * The flow in binary32 arithmetic

    The tensors of the source are [float32].  This second embedding of
    [forward] and [inverse] computes on IEEE 754 binary32 values (24 bits
    of precision, exponents up to 128) with the operations of the
    Standard Library's specification of floating-point arithmetic: every
    product, sum and difference is rounded to nearest, ties to even, and
    follows the rules for zeros, infinities and NaN. *)

Abbreviation f32 := spec_float.
Abbreviation fvec := (list spec_float).
Abbreviation fbatch := (list (list spec_float)).

Definition fmul : f32 -> f32 -> f32 := SFmul 24 128.
Definition fadd : f32 -> f32 -> f32 := SFadd 24 128.
Definition fsub : f32 -> f32 -> f32 := SFsub 24 128.
Definition fopp : f32 -> f32 := SFopp.

(** [0.0], [1.0] and [2.0]. *)
Definition f32_zero : f32 := S754_zero false.
Definition f32_one : f32 := S754_finite false 8388608 (-23).
Definition f32_two : f32 := S754_finite false 8388608 (-22).

(** The real number a finite binary32 value stands for. *)
Definition B2R32 (x : f32) : R :=
  match x with
  | S754_finite s m e =>
      (if s then -1 else 1) * IZR (Zpos m) * powerRZ 2 e
  | _ => 0
  end.

(** Rounding of a real number to binary32, to nearest with ties to even:
    infinity from [2^128] on; below, the number is cut to an integer of 27
    bits with the position of the rest, which [binary_round_aux] rounds. *)
Definition round32 (r : R) : f32 :=
  if Req_dec_T r 0 then S754_zero false
  else
    let sign := if Rlt_dec r 0 then true else false in
    let a := Rabs r in
    if Rle_dec (powerRZ 2 128) a then S754_infinity sign
    else
      let e0 := (Int_part (ln a / ln 2) - 26)%Z in
      let q := a * powerRZ 2 (- e0) in
      let m := Int_part q in
      let l :=
        if Req_dec_T q (IZR m) then loc_Exact
        else loc_Inexact
               (if Rlt_dec (q - IZR m) (1 / 2) then Lt
                else if Req_dec_T (q - IZR m) (1 / 2) then Eq else Gt) in
      binary_round_aux 24 128 sign m e0 l.

(** [tf.exp] on a binary32 value: 1 at both zeros, the limits at the
    infinities, NaN at NaN, and the rounded exponential elsewhere.
    TensorFlow's kernel may differ from the rounded exponential in the
    last bit; the results below use only the value at the zeros and the
    overflow to infinity. *)
Definition exp32 (x : f32) : f32 :=
  match x with
  | S754_zero _ => f32_one
  | S754_infinity false => S754_infinity false
  | S754_infinity true => S754_zero false
  | S754_nan => S754_nan
  | S754_finite _ _ _ => round32 (exp (B2R32 x))
  end.

(** Elementwise operations with broadcasting, for any type of entries. *)
Definition gvop {A : Type} (op : A -> A -> A)
    : list A -> list A -> result (list A) :=
  broadcast (fun a b => Ok (op a b)).

Definition gtop {A : Type} (op : A -> A -> A)
    : list (list A) -> list (list A) -> result (list (list A)) :=
  broadcast (gvop op).

Definition grow {A : Type} (m : list A) : list (list A) := [m].

Definition gmap2 {A B : Type} (f : A -> B) (x : list (list A))
    : list (list B) :=
  (fun r : list A => f <$> r) <$> x.

Definition freduce_sum (s : fbatch) : fvec := foldl fadd f32_zero <$> s.

Record s_t32 : Type := { call32 : fbatch -> fbatch * fbatch }.

(** The fields of [realnvp] that [forward] and [inverse] read. *)
Record realnvp32 : Type := {
  num_cl32 : nat;
  masks32 : list fvec;
  layers32 : list s_t32
}.

Definition forward_expr32 (x_masked : fbatch) (reversed_mask : fvec)
    (x s t : fbatch) : result fbatch :=
  xe ← gtop fmul x (gmap2 exp32 s);
  xer ← gtop fmul xe (grow reversed_mask);
  tr ← gtop fmul t (grow reversed_mask);
  inner ← gtop fadd xer tr;
  scaled ← gtop fmul (grow reversed_mask) inner;
  gtop fadd x_masked scaled.

Definition inverse_expr32 (y_masked : fbatch) (reversed_mask : fvec)
    (y s t : fbatch) : result fbatch :=
  tr ← gtop fmul t (grow reversed_mask);
  yt ← gtop fsub y tr;
  ryt ← gtop fmul (grow reversed_mask) yt;
  sr ← gtop fmul s (grow reversed_mask);
  prod ← gtop fmul ryt (gmap2 exp32 (gmap2 fopp sr));
  gtop fadd prod y_masked.

Definition forward_body32 (self : realnvp32) (i : nat) (st : fbatch * fvec)
    : result (fbatch * fvec) :=
  let '(x, log_det_for) := st in
  mask ← getitem (masks32 self) i;
  x_masked ← gtop fmul x (grow mask);
  let reversed_mask := fsub f32_one <$> mask in
  layer ← getitem (layers32 self) i;
  let '(s, t) := call32 layer x_masked in
  x' ← forward_expr32 x_masked reversed_mask x s t;
  log_det_for' ← gvop fadd log_det_for (freduce_sum s);
  Ok (x', log_det_for').


Definition inverse_body32 (self : realnvp32) (i : nat) (st : fbatch * fvec)
    : result (fbatch * fvec) :=
  let '(y, log_det_inv) := st in
  mask ← getitem (masks32 self) i;
  y_masked ← gtop fmul y (grow mask);
  let reversed_mask := fsub f32_one <$> mask in
  layer ← getitem (layers32 self) i;
  let '(s, t) := call32 layer y_masked in
  y' ← inverse_expr32 y_masked reversed_mask y s t;
  log_det_inv' ← gvop fsub log_det_inv (freduce_sum s);
  Ok (y', log_det_inv').


(** ** Predicates on binary32 values and tensors *)

(** A zero or a finite number, as opposed to an infinity or NaN. *)
Definition is_finite32 (x : f32) : Prop :=
  match x with
  | S754_zero _ | S754_finite _ _ _ => True
  | _ => False
  end.

(** A value of the format: its mantissa and exponent are the canonical
    ones. *)
Definition valid32 (x : f32) : Prop := valid_binary 24 128 x = true.

Definition is_zero32 (x : f32) : Prop :=
  match x with
  | S754_zero _ => True
  | _ => False
  end.

(** Equal as numbers: the same value, or two zeros of any signs. *)
Definition num_eq32 (a b : f32) : Prop :=
  a = b \/ (is_zero32 a /\ is_zero32 b).

Definition binary32 (m : fvec) : Prop :=
  Forall (fun v => v = f32_zero \/ v = f32_one) m.

Definition gshape {A : Type} (B D : nat) (x : list (list A)) : Prop :=
  length x = B /\ Forall (fun r : list A => length r = D) x.

Definition fcoord (v : fvec) (j : nat) : f32 := nth j v f32_zero.
Definition fent (x : fbatch) (b j : nat) : f32 := fcoord (nth b x []) j.

Definition gtab2 {A : Type} (B D : nat) (g : nat -> nat -> A)
    : list (list A) :=
  tab B (fun b => tab D (g b)).

Definition s_t32_contract (B D : nat) (layer : s_t32) : Prop :=
  forall x : fbatch, gshape B D x ->
    gshape B D (call32 layer x).1 /\ gshape B D (call32 layer x).2.

(** The entries the two loop bodies compute in binary32. *)
Definition forward_entry32 (mu : nat -> f32) (g sigma tau : nat -> nat -> f32)
    (b j : nat) : f32 :=
  let rm := fsub f32_one (mu j) in
  fadd (fmul (g b j) (mu j))
    (fmul rm (fadd (fmul (fmul (g b j) (exp32 (sigma b j))) rm)
                   (fmul (tau b j) rm))).

Definition inverse_entry32 (mu : nat -> f32) (g sigma tau : nat -> nat -> f32)
    (b j : nat) : f32 :=
  let rm := fsub f32_one (mu j) in
  fadd (fmul (fmul rm (fsub (g b j) (fmul (tau b j) rm)))
          (exp32 (fopp (fmul (sigma b j) rm))))
    (fmul (g b j) (mu j)).

(** ** Concrete binary32 flows *)

Definition const_net32 (s0 c : fvec) : s_t32 :=
  {| call32 := fun x : fbatch =>
       ((fun _ : fvec => s0) <$> x, (fun _ : fvec => c) <$> x) |}.

Definition f32_200 : f32 := S754_finite false 13107200 (-16).


(** One layer with mask [[0, 1]] whose network returns [s = [0, 200]] and
    [t = [0, 0]]. *)
Definition overflow_flow32 : realnvp32 :=
  {| num_cl32 := 1;
     masks32 := [[f32_zero; f32_one]];
     layers32 := [const_net32 [f32_zero; f32_200] [f32_zero; f32_zero]] |}.

(** * Proofs *)

(** ** Tabulated lists *)

Section tab_lemmas.
Context {A : Type}.
Implicit Types (g h : nat -> A).

Lemma length_tab n g : length (tab n g) = n.
Proof. unfold tab. by rewrite length_fmap, length_seq. Qed.

Lemma lookup_tab n g i : (i < n)%nat -> tab n g !! i = Some (g i).
Proof.
  intros Hi. unfold tab.
  by rewrite list_lookup_fmap, lookup_seq_lt.
Qed.

Lemma tab_ext n g h :
  (forall i, (i < n)%nat -> g i = h i) -> tab n g = tab n h.
Proof.
  intros Hgh. unfold tab. apply list_fmap_ext.
  intros i x Hx. apply lookup_seq in Hx as [-> Hlt]. by apply Hgh.
Qed.

Lemma tab_S n g : tab (S n) g = g 0%nat :: tab n (fun i => g (S i)).
Proof.
  unfold tab. cbn [seq]. rewrite fmap_cons. f_equal.
  by rewrite <- fmap_S_seq, <- list_fmap_compose.
Qed.

Lemma tab_of_list (d : A) (l : list A) :
  l = tab (length l) (fun i => nth i l d).
Proof.
  induction l as [|a l IH]; [done|].
  cbn [length]. rewrite tab_S. cbn [nth]. by rewrite <- IH.
Qed.
End tab_lemmas.

Lemma fmap_tab {A B : Type} (f : A -> B) n (g : nat -> A) :
  f <$> tab n g = tab n (fun i => f (g i)).
Proof. unfold tab. by rewrite <- list_fmap_compose. Qed.

Lemma zeros_tab n : zeros n = tab n (fun _ => 0).
Proof.
  unfold zeros. induction n as [|n IH]; [done|].
  rewrite tab_S. cbn [replicate]. by rewrite IH.
Qed.

(** *** Broadcasting on tabulated operands *)

Section broadcast_tab.
Context {A B C : Type} (f : A -> B -> result C).

Lemma zipM_tab n (g : nat -> A) (h : nat -> B) (k : nat -> C) :
  (forall i, (i < n)%nat -> f (g i) (h i) = Ok (k i)) ->
  zipM f (tab n g) (tab n h) = Ok (tab n k).
Proof.
  revert g h k. induction n as [|n IH]; intros g h k Hf; [done|].
  rewrite !tab_S. cbn [zipM].
  rewrite (Hf 0%nat) by lia. cbn.
  rewrite (IH _ _ (fun i => k (S i))); [done|].
  intros i Hi. apply Hf. lia.
Qed.

Lemma forM_tab {X : Type} (p : X -> result C) n (g : nat -> X)
    (k : nat -> C) :
  (forall i, (i < n)%nat -> p (g i) = Ok (k i)) ->
  forM p (tab n g) = Ok (tab n k).
Proof.
  revert g k. induction n as [|n IH]; intros g k Hp; [done|].
  rewrite !tab_S. cbn [forM].
  rewrite (Hp 0%nat) by lia. cbn.
  rewrite (IH _ (fun i => k (S i))); [done|].
  intros i Hi. apply Hp. lia.
Qed.

Lemma broadcast_tab n (g : nat -> A) (h : nat -> B) (k : nat -> C) :
  (forall i, (i < n)%nat -> f (g i) (h i) = Ok (k i)) ->
  broadcast f (tab n g) (tab n h) = Ok (tab n k).
Proof.
  intros Hf. unfold broadcast.
  rewrite decide_True by (by rewrite !length_tab).
  by apply zipM_tab.
Qed.

Lemma broadcast_tab_r n (g : nat -> A) (y : B) (k : nat -> C) :
  (forall i, (i < n)%nat -> f (g i) y = Ok (k i)) ->
  broadcast f (tab n g) [y] = Ok (tab n k).
Proof.
  intros Hf. unfold broadcast.
  destruct n as [|[|n]].
  - done.
  - cbn. rewrite (Hf 0%nat) by lia. done.
  - rewrite decide_False by (rewrite length_tab; cbn; lia).
    pose proof (length_tab (S (S n)) g) as Hlen.
    destruct (tab (S (S n)) g) as [|a [|a' l]] eqn:E; [done..|].
    change (forM (fun x => f x y) (a :: a' :: l) = Ok (tab (S (S n)) k)).
    rewrite <- E. by apply forM_tab.
Qed.

Lemma broadcast_tab_l n (x : A) (h : nat -> B) (k : nat -> C) :
  (forall i, (i < n)%nat -> f x (h i) = Ok (k i)) ->
  broadcast f [x] (tab n h) = Ok (tab n k).
Proof.
  intros Hf. unfold broadcast.
  destruct n as [|[|n]].
  - done.
  - cbn. rewrite (Hf 0%nat) by lia. done.
  - rewrite decide_False by (rewrite length_tab; cbn; lia).
    by apply forM_tab.
Qed.
End broadcast_tab.

Lemma vop_tab op D (g h : nat -> R) :
  vop op (tab D g) (tab D h) = Ok (tab D (fun j => op (g j) (h j))).
Proof. unfold vop. by apply broadcast_tab. Qed.

Lemma top_tab op B D (g h : nat -> nat -> R) :
  top op (tab2 B D g) (tab2 B D h)
  = Ok (tab2 B D (fun b j => op (g b j) (h b j))).
Proof.
  unfold top, tab2. apply broadcast_tab. intros b _. apply vop_tab.
Qed.

Lemma top_tab_row_r op B D (g : nat -> nat -> R) (mu : nat -> R) :
  top op (tab2 B D g) (row (tab D mu))
  = Ok (tab2 B D (fun b j => op (g b j) (mu j))).
Proof.
  unfold top, tab2, row. apply broadcast_tab_r. intros b _. apply vop_tab.
Qed.

Lemma top_tab_row_l op B D (mu : nat -> R) (g : nat -> nat -> R) :
  top op (row (tab D mu)) (tab2 B D g)
  = Ok (tab2 B D (fun b j => op (mu j) (g b j))).
Proof.
  unfold top, tab2, row. apply broadcast_tab_l. intros b _. apply vop_tab.
Qed.

Lemma texp_tab B D (g : nat -> nat -> R) :
  texp (tab2 B D g) = tab2 B D (fun b j => exp (g b j)).
Proof.
  unfold texp, tab2. rewrite fmap_tab. apply tab_ext. intros b _.
  by rewrite fmap_tab.
Qed.

Lemma tneg_tab B D (g : nat -> nat -> R) :
  tneg (tab2 B D g) = tab2 B D (fun b j => - g b j).
Proof.
  unfold tneg, tab2. rewrite fmap_tab. apply tab_ext. intros b _.
  by rewrite fmap_tab.
Qed.

Lemma reduce_sum_tab B D (g : nat -> nat -> R) :
  reduce_sum (tab2 B D g) = tab B (fun b => foldr Rplus 0 (tab D (g b))).
Proof. unfold reduce_sum, tab2. by rewrite fmap_tab. Qed.

Lemma tab2_ext B D (g h : nat -> nat -> R) :
  (forall b j, (b < B)%nat -> (j < D)%nat -> g b j = h b j) ->
  tab2 B D g = tab2 B D h.
Proof.
  intros Hgh. unfold tab2. apply tab_ext. intros b Hb.
  apply tab_ext. intros j Hj. by apply Hgh.
Qed.

Lemma shape_tab2 B D g : shape B D (tab2 B D g).
Proof.
  split; [apply length_tab|].
  unfold tab2, tab. apply Forall_fmap, Forall_forall. intros b _.
  apply (length_tab D (g b)).
Qed.

Lemma tab2_of_shape B D (x : batch) :
  shape B D x -> x = tab2 B D (ent x).
Proof.
  intros [<- Hrows]. unfold tab2.
  rewrite (tab_of_list [] x) at 1. apply tab_ext. intros b Hb.
  unfold ent, coord.
  assert (length (nth b x []) = D) as <-.
  { rewrite Forall_forall in Hrows. apply Hrows.
    apply list_elem_of_In, nth_In, Hb. }
  apply tab_of_list.
Qed.

Lemma tab_of_vec D (v : vec) : length v = D -> v = tab D (coord v).
Proof. intros <-. apply tab_of_list. Qed.

(** A mask and its complement always add up to the all-ones vector: of the
    two conditions on a mask only the binary one constrains it. *)
Lemma mask_plus_complement (m : vec) :
  vop Rplus m (Rminus 1 <$> m) = Ok (replicate (length m) 1).
Proof.
  rewrite (tab_of_vec (length m) m eq_refl) at 1 2.
  rewrite fmap_tab, vop_tab. f_equal.
  rewrite (tab_ext _ _ (fun _ => 1)) by (intros; lra).
  induction (length m) as [|n IH]; [done|].
  rewrite tab_S. cbn [replicate]. by rewrite IH.
Qed.

(** ** One coupling step in closed form *)

Lemma bind_Ok {A B : Type} (a : A) (f : A -> result B) : Ok a ≫= f = f a.
Proof. reflexivity. Qed.

Lemma getitem_Some {A : Type} (xs : list A) i x :
  xs !! i = Some x -> getitem xs i = Ok x.
Proof. unfold getitem. by intros ->. Qed.

Create Rewrite HintDb tensor.
#[local] Hint Rewrite @bind_Ok @fmap_tab top_tab top_tab_row_r top_tab_row_l
  texp_tab tneg_tab reduce_sum_tab vop_tab : tensor.

Section coupling_step.
Context (self : realnvp) (i B D : nat) (layer : s_t) (mu : nat -> R).
Hypothesis Hmask : masks self !! i = Some (tab D mu).
Hypothesis Hlayer : layers self !! i = Some layer.

Lemma forward_body_tab (g sigma tau : nat -> nat -> R) (a : nat -> R) :
  call layer (tab2 B D (masked_entry mu g))
    = (tab2 B D sigma, tab2 B D tau) ->
  forward_body self i (tab2 B D g, tab B a)
  = Ok (tab2 B D (forward_entry mu g sigma tau),
        tab B (fun b => a b + row_sum D sigma b)).
Proof.
  intros Hcall. unfold forward_body, forward_expr.
  rewrite (getitem_Some _ _ _ Hmask), (getitem_Some _ _ _ Hlayer).
  autorewrite with tensor.
  change (fun b j => g b j * mu j) with (masked_entry mu g).
  rewrite Hcall. cbn iota beta.
  autorewrite with tensor. reflexivity.
Qed.

Lemma inverse_body_tab (g sigma tau : nat -> nat -> R) (a : nat -> R) :
  call layer (tab2 B D (masked_entry mu g))
    = (tab2 B D sigma, tab2 B D tau) ->
  inverse_body self i (tab2 B D g, tab B a)
  = Ok (tab2 B D (inverse_entry mu g sigma tau),
        tab B (fun b => a b - row_sum D sigma b)).
Proof.
  intros Hcall. unfold inverse_body, inverse_expr.
  rewrite (getitem_Some _ _ _ Hmask), (getitem_Some _ _ _ Hlayer).
  autorewrite with tensor.
  change (fun b j => g b j * mu j) with (masked_entry mu g).
  rewrite Hcall. cbn iota beta.
  autorewrite with tensor. reflexivity.
Qed.
End coupling_step.

(** ** Arithmetic of one entry under a binary mask *)

Lemma exp_cancel (s : R) : exp s * exp (- s) = 1.
Proof. by rewrite <- exp_plus, Rplus_opp_r, exp_0. Qed.

Section entry_lemmas.
Context (mu : nat -> R) (g sigma tau : nat -> nat -> R) (b j : nat).

Lemma forward_entry_masked :
  mu j = 1 -> forward_entry mu g sigma tau b j = g b j.
Proof. unfold forward_entry. intros ->. ring. Qed.

Lemma forward_entry_unmasked :
  mu j = 0 ->
  forward_entry mu g sigma tau b j = g b j * exp (sigma b j) + tau b j.
Proof. unfold forward_entry. intros ->. ring. Qed.

Lemma inverse_entry_masked :
  mu j = 1 -> inverse_entry mu g sigma tau b j = g b j.
Proof. unfold inverse_entry. intros ->. ring. Qed.

Lemma inverse_entry_unmasked :
  mu j = 0 ->
  inverse_entry mu g sigma tau b j
  = (g b j - tau b j) * exp (- sigma b j).
Proof.
  unfold inverse_entry. intros ->.
  replace (sigma b j * (1 - 0)) with (sigma b j) by ring. ring.
Qed.
End entry_lemmas.

Section entry_round_trip.
Context (mu : nat -> R) (g sigma tau : nat -> nat -> R) (b j : nat).
Hypothesis Hbin : mu j = 0 \/ mu j = 1.

Lemma masked_forward_entry :
  masked_entry mu (forward_entry mu g sigma tau) b j
  = masked_entry mu g b j.
Proof.
  unfold masked_entry, forward_entry. destruct Hbin as [-> | ->]; ring.
Qed.

Lemma masked_inverse_entry :
  masked_entry mu (inverse_entry mu g sigma tau) b j
  = masked_entry mu g b j.
Proof.
  unfold masked_entry, inverse_entry. destruct Hbin as [-> | ->]; ring.
Qed.

Lemma inverse_forward_entry :
  inverse_entry mu (forward_entry mu g sigma tau) sigma tau b j = g b j.
Proof.
  destruct Hbin as [H0 | H1].
  - rewrite inverse_entry_unmasked, forward_entry_unmasked by done.
    replace (g b j * exp (sigma b j) + tau b j - tau b j)
      with (g b j * exp (sigma b j)) by ring.
    rewrite Rmult_assoc, exp_cancel. ring.
  - by rewrite inverse_entry_masked, forward_entry_masked.
Qed.

Lemma forward_inverse_entry :
  forward_entry mu (inverse_entry mu g sigma tau) sigma tau b j = g b j.
Proof.
  destruct Hbin as [H0 | H1].
  - rewrite forward_entry_unmasked, inverse_entry_unmasked by done.
    rewrite Rmult_assoc, (Rmult_comm (exp (- _))), exp_cancel. ring.
  - by rewrite forward_entry_masked, inverse_entry_masked.
Qed.
End entry_round_trip.

Lemma binary_coord D (m : vec) (j : nat) :
  length m = D -> binary m -> (j < D)%nat -> coord m j = 0 \/ coord m j = 1.
Proof.
  intros <- Hm Hj. unfold binary in Hm. rewrite Forall_forall in Hm.
  apply Hm. unfold coord. apply list_elem_of_In, nth_In, Hj.
Qed.

Lemma for_loop_app {S : Type} (body : nat -> S -> result S) l1 l2 st :
  for_loop body (l1 ++ l2) st
  = for_loop body l1 st ≫= for_loop body l2.
Proof.
  revert st. induction l1 as [|i l1 IH]; intros st; [done|].
  cbn [app for_loop]. destruct (body i st) as [st'|e]; [|done].
  rewrite !bind_Ok. apply IH.
Qed.

Lemma coord_tab D (f : nat -> R) j : (j < D)%nat -> coord (tab D f) j = f j.
Proof.
  intros Hj. unfold coord. by rewrite nth_lookup, lookup_tab.
Qed.

Lemma ent_tab2 B D (f : nat -> nat -> R) b j :
  (b < B)%nat -> (j < D)%nat -> ent (tab2 B D f) b j = f b j.
Proof.
  intros Hb Hj. unfold ent, tab2.
  rewrite nth_lookup, lookup_tab by done. cbn. by apply coord_tab.
Qed.

(** ** Coupling steps that undo each other *)

Section step_round_trip.
Context (self : realnvp) (B D i : nat).
Hypothesis Hvalid : valid_index self B D i.

Lemma forward_then_inverse_body (x : batch) :
  shape B D x ->
  exists (x' : batch) (dl : nat -> R),
    shape B D x' /\
    forall a : nat -> R,
      forward_body self i (x, tab B a)
        = Ok (x', tab B (fun b => a b + dl b)) /\
      inverse_body self i (x', tab B a)
        = Ok (x, tab B (fun b => a b - dl b)).
Proof.
  intros Hx.
  destruct Hvalid as (m & layer & Hm & Hlen & Hbin & Hl & Hnet).
  rewrite (tab_of_vec D m Hlen) in Hm.
  rewrite (tab2_of_shape B D x Hx).
  set (g := ent x). set (mu := coord m) in *.
  destruct (call layer (tab2 B D (masked_entry mu g))) as [s t] eqn:Hcall.
  destruct (Hnet (tab2 B D (masked_entry mu g)) (shape_tab2 _ _ _))
    as [Hs Ht].
  rewrite Hcall in Hs, Ht. cbn in Hs, Ht.
  rewrite (tab2_of_shape B D s Hs), (tab2_of_shape B D t Ht) in Hcall.
  exists (tab2 B D (forward_entry mu g (ent s) (ent t))),
    (row_sum D (ent s)).
  split; [apply shape_tab2|]. intros a. split.
  - by apply (forward_body_tab self i B D layer).
  - rewrite (inverse_body_tab self i B D layer mu Hm Hl _ (ent s) (ent t)).
    + f_equal. f_equal. apply tab2_ext. intros b j _ Hj.
      apply inverse_forward_entry. by apply (binary_coord D).
    + rewrite <- Hcall. f_equal. apply tab2_ext. intros b j _ Hj.
      apply masked_forward_entry. by apply (binary_coord D).
Qed.

Lemma inverse_then_forward_body (x : batch) :
  shape B D x ->
  exists (z : batch) (dl : nat -> R),
    shape B D z /\
    forall a : nat -> R,
      inverse_body self i (x, tab B a)
        = Ok (z, tab B (fun b => a b - dl b)) /\
      forward_body self i (z, tab B a)
        = Ok (x, tab B (fun b => a b + dl b)).
Proof.
  intros Hx.
  destruct Hvalid as (m & layer & Hm & Hlen & Hbin & Hl & Hnet).
  rewrite (tab_of_vec D m Hlen) in Hm.
  rewrite (tab2_of_shape B D x Hx).
  set (g := ent x). set (mu := coord m) in *.
  destruct (call layer (tab2 B D (masked_entry mu g))) as [s t] eqn:Hcall.
  destruct (Hnet (tab2 B D (masked_entry mu g)) (shape_tab2 _ _ _))
    as [Hs Ht].
  rewrite Hcall in Hs, Ht. cbn in Hs, Ht.
  rewrite (tab2_of_shape B D s Hs), (tab2_of_shape B D t Ht) in Hcall.
  exists (tab2 B D (inverse_entry mu g (ent s) (ent t))),
    (row_sum D (ent s)).
  split; [apply shape_tab2|]. intros a. split.
  - by apply (inverse_body_tab self i B D layer).
  - rewrite (forward_body_tab self i B D layer mu Hm Hl _ (ent s) (ent t)).
    + f_equal. f_equal. apply tab2_ext. intros b j _ Hj.
      apply forward_inverse_entry. by apply (binary_coord D).
    + rewrite <- Hcall. f_equal. apply tab2_ext. intros b j _ Hj.
      apply masked_inverse_entry. by apply (binary_coord D).
Qed.
End step_round_trip.

(** ** Loops that undo each other *)

Section loop_round_trip.
Context (self : realnvp) (B D : nat).

Lemma forward_then_inverse_loop (idx : list nat) :
  Forall (valid_index self B D) idx ->
  forall x : batch, shape B D x ->
  exists (x' : batch) (dl : nat -> R),
    shape B D x' /\
    forall a : nat -> R,
      for_loop (forward_body self) idx (x, tab B a)
        = Ok (x', tab B (fun b => a b + dl b)) /\
      for_loop (inverse_body self) (reverse idx) (x', tab B a)
        = Ok (x, tab B (fun b => a b - dl b)).
Proof.
  induction 1 as [|i idx Hi _ IH]; intros x Hx.
  - exists x, (fun _ => 0). split; [done|]. intros a. cbn.
    split; do 2 f_equal; apply tab_ext; intros; lra.
  - destruct (forward_then_inverse_body self B D i Hi x Hx)
      as (x1 & d1 & Hx1 & Hstep).
    destruct (IH x1 Hx1) as (x' & d' & Hx' & Hloop).
    exists x', (fun b => d1 b + d' b). split; [done|]. intros a. split.
    + cbn [for_loop]. rewrite (proj1 (Hstep a)), bind_Ok.
      rewrite (proj1 (Hloop _)). do 2 f_equal. apply tab_ext. intros; lra.
    + rewrite reverse_cons, for_loop_app.
      rewrite (proj2 (Hloop a)), bind_Ok. cbn [for_loop].
      rewrite (proj2 (Hstep _)), bind_Ok.
      do 2 f_equal. apply tab_ext. intros; lra.
Qed.

Lemma inverse_then_forward_loop (idx : list nat) :
  Forall (valid_index self B D) idx ->
  forall x : batch, shape B D x ->
  exists (z : batch) (dl : nat -> R),
    shape B D z /\
    forall a : nat -> R,
      for_loop (inverse_body self) (reverse idx) (x, tab B a)
        = Ok (z, tab B (fun b => a b - dl b)) /\
      for_loop (forward_body self) idx (z, tab B a)
        = Ok (x, tab B (fun b => a b + dl b)).
Proof.
  induction 1 as [|i idx Hi _ IH]; intros x Hx.
  - exists x, (fun _ => 0). split; [done|]. intros a. cbn.
    split; do 2 f_equal; apply tab_ext; intros; lra.
  - destruct (IH x Hx) as (w & d' & Hw & Hloop).
    destruct (inverse_then_forward_body self B D i Hi w Hw)
      as (z & d1 & Hz & Hstep).
    exists z, (fun b => d' b + d1 b). split; [done|]. intros a. split.
    + rewrite reverse_cons, for_loop_app.
      rewrite (proj1 (Hloop a)), bind_Ok. cbn [for_loop].
      rewrite (proj1 (Hstep _)), bind_Ok.
      do 2 f_equal. apply tab_ext. intros; lra.
    + cbn [for_loop]. rewrite (proj2 (Hstep a)), bind_Ok.
      rewrite (proj2 (Hloop _)). do 2 f_equal. apply tab_ext. intros; lra.
Qed.
End loop_round_trip.

Lemma well_formed_valid B D layers0 masks0 distr0 self :
  realnvp_init layers0 masks0 distr0 = Ok self ->
  well_formed B D layers0 masks0 ->
  Forall (valid_index self B D) (seq 0 (num_cl self)).
Proof.
  intros [= <-] (Hbin & Hlen & Hle & Hnet). cbn [num_cl].
  apply Forall_forall. intros i Hi. apply elem_of_seq in Hi.
  destruct (lookup_lt_is_Some_2 masks0 i) as [m Hm]; [lia|].
  destruct (lookup_lt_is_Some_2 layers0 i) as [layer Hl]; [lia|].
  exists m, layer. cbn [masks layers].
  rewrite Forall_lookup in Hbin. rewrite Forall_lookup in Hlen.
  rewrite Forall_lookup in Hnet. split_and!; eauto.
Qed.

Lemma shape_here (D : nat) (x : batch) :
  Forall (fun r : vec => length r = D) x -> shape (length x) D x.
Proof. by split. Qed.

(** ** Round trip and antisymmetry of the whole flow *)

Lemma forward_inverse_flow B D layers0 masks0 distr0 self (x : batch) :
  realnvp_init layers0 masks0 distr0 = Ok self ->
  well_formed B D layers0 masks0 ->
  shape B D x ->
  exists (z : batch) (dl : nat -> R),
    shape B D z /\
    forward self x = Ok (z, tab B dl) /\
    inverse self z = Ok (x, tab B (fun b => - dl b)).
Proof.
  intros Hinit Hwf Hx.
  pose proof (well_formed_valid _ _ _ _ _ _ Hinit Hwf) as Hidx.
  destruct (forward_then_inverse_loop self B D _ Hidx x Hx)
    as (z & dl & Hz & Hloop).
  exists z, dl. split; [done|]. unfold forward, inverse.
  rewrite (proj1 Hx), (proj1 Hz), zeros_tab.
  destruct (Hloop (fun _ => 0)) as [-> ->].
  split; do 2 f_equal; apply tab_ext; intros; lra.
Qed.

Lemma inverse_forward_flow B D layers0 masks0 distr0 self (x : batch) :
  realnvp_init layers0 masks0 distr0 = Ok self ->
  well_formed B D layers0 masks0 ->
  shape B D x ->
  exists (z : batch) (dl : nat -> R),
    shape B D z /\
    inverse self x = Ok (z, tab B (fun b => - dl b)) /\
    forward self z = Ok (x, tab B dl).
Proof.
  intros Hinit Hwf Hx.
  pose proof (well_formed_valid _ _ _ _ _ _ Hinit Hwf) as Hidx.
  destruct (inverse_then_forward_loop self B D _ Hidx x Hx)
    as (z & dl & Hz & Hloop).
  exists z, dl. split; [done|]. unfold forward, inverse.
  rewrite (proj1 Hx), (proj1 Hz), zeros_tab.
  destruct (Hloop (fun _ => 0)) as [-> ->].
  split; do 2 f_equal; apply tab_ext; intros; lra.
Qed.

(** C1. For a flow built from binary masks of dimension [D] and feature
    networks that keep the shape of their input, and for every batch [x] of
    dimension [D] (in particular [D = 2]): [forward] succeeds on [x] and
    [inverse] applied to its vector output returns [x]; [inverse] succeeds
    on [x] and [forward] applied to its vector output returns [x].  The
    equalities are exact, in real arithmetic. *)
Theorem realnvp_round_trip D layers0 masks0 distr0 self (x : batch) :
  realnvp_init layers0 masks0 distr0 = Ok self ->
  well_formed (length x) D layers0 masks0 ->
  Forall (fun r : vec => length r = D) x ->
  (exists z ld ld', forward self x = Ok (z, ld) /\
                    inverse self z = Ok (x, ld')) /\
  (exists z ld ld', inverse self x = Ok (z, ld) /\
                    forward self z = Ok (x, ld')).
Proof.
  intros Hinit Hwf Hx%shape_here. split.
  - destruct (forward_inverse_flow _ _ _ _ _ _ x Hinit Hwf Hx)
      as (z & dl & _ & Hf & Hi).
    by exists z, (tab (length x) dl), (tab (length x) (fun b => - dl b)).
  - destruct (inverse_forward_flow _ _ _ _ _ _ x Hinit Hwf Hx)
      as (z & dl & _ & Hi & Hf).
    by exists z, (tab (length x) (fun b => - dl b)), (tab (length x) dl).
Qed.

(** C3. For a flow built from binary masks and every batch [x], the
    log-determinant returned by [forward x] is the negation, sample by
    sample, of the one returned by [inverse] on the vector output of
    [forward x]. *)
Theorem log_det_antisymmetry D layers0 masks0 distr0 self (x : batch) :
  realnvp_init layers0 masks0 distr0 = Ok self ->
  well_formed (length x) D layers0 masks0 ->
  Forall (fun r : vec => length r = D) x ->
  exists z x' log_det_for log_det_inv,
    forward self x = Ok (z, log_det_for) /\
    inverse self z = Ok (x', log_det_inv) /\
    log_det_for = Ropp <$> log_det_inv.
Proof.
  intros Hinit Hwf Hx%shape_here.
  destruct (forward_inverse_flow _ _ _ _ _ _ x Hinit Hwf Hx)
    as (z & dl & _ & Hf & Hi).
  exists z, x, (tab (length x) dl), (tab (length x) (fun b => - dl b)).
  split; [done|]. split; [done|].
  rewrite fmap_tab. apply tab_ext. intros; lra.
Qed.

(** ** One coupling step on well-shaped operands *)

Section body_shape.
Context (self : realnvp) (B D i : nat) (m : vec) (layer : s_t).
Hypothesis Hmask : masks self !! i = Some m.
Hypothesis Hlayer : layers self !! i = Some layer.
Hypothesis Hlen : length m = D.
Hypothesis Hnet : s_t_contract B D layer.

Lemma call_shape (x : batch) :
  shape B D x ->
  exists s t : batch,
    call layer (tab2 B D (masked_entry (coord m) (ent x)))
      = (tab2 B D (ent s), tab2 B D (ent t)).
Proof.
  intros Hx.
  destruct (call layer (tab2 B D (masked_entry (coord m) (ent x))))
    as [s t] eqn:Hcall.
  destruct (Hnet (tab2 B D (masked_entry (coord m) (ent x)))
              (shape_tab2 _ _ _)) as [Hs Ht].
  rewrite Hcall in Hs, Ht. cbn in Hs, Ht.
  exists s, t. by rewrite <- (tab2_of_shape B D s), <- (tab2_of_shape B D t).
Qed.

Lemma forward_body_shape (x : batch) (ld : vec) :
  shape B D x -> length ld = B ->
  exists s t : batch,
    forward_body self i (x, ld)
    = Ok (tab2 B D (forward_entry (coord m) (ent x) (ent s) (ent t)),
          tab B (fun b => coord ld b + row_sum D (ent s) b)).
Proof.
  intros Hx Hld. destruct (call_shape x Hx) as (s & t & Hcall).
  exists s, t.
  rewrite (tab2_of_shape B D x Hx) at 1. rewrite (tab_of_vec B ld Hld) at 1.
  apply (forward_body_tab self i B D layer (coord m)); [|done..].
  by rewrite <- (tab_of_vec D m).
Qed.

Lemma inverse_body_shape (y : batch) (ld : vec) :
  shape B D y -> length ld = B ->
  exists s t : batch,
    inverse_body self i (y, ld)
    = Ok (tab2 B D (inverse_entry (coord m) (ent y) (ent s) (ent t)),
          tab B (fun b => coord ld b - row_sum D (ent s) b)).
Proof.
  intros Hy Hld. destruct (call_shape y Hy) as (s & t & Hcall).
  exists s, t.
  rewrite (tab2_of_shape B D y Hy) at 1. rewrite (tab_of_vec B ld Hld) at 1.
  apply (inverse_body_tab self i B D layer (coord m)); [|done..].
  by rewrite <- (tab_of_vec D m).
Qed.
End body_shape.

(** In exact arithmetic, where no product overflows: in one coupling step
    with mask [m], every coordinate [j] with [m_j = 1] of every sample is
    the same in the step's input and in its output, in the forward and in
    the inverse direction, whatever the input and whatever the feature
    network returns. *)
Lemma pass_through B D (self : realnvp) i (m : vec) (layer : s_t)
    (x : batch) (ld : vec) :
  masks self !! i = Some m ->
  layers self !! i = Some layer ->
  binary m -> length m = D ->
  s_t_contract B D layer ->
  shape B D x -> length ld = B ->
  (exists x' ld', forward_body self i (x, ld) = Ok (x', ld') /\
     forall b j, (b < B)%nat -> coord m j = 1 -> ent x' b j = ent x b j) /\
  (exists y' ld', inverse_body self i (x, ld) = Ok (y', ld') /\
     forall b j, (b < B)%nat -> coord m j = 1 -> ent y' b j = ent x b j).
Proof.
  intros Hm Hl _ Hlen Hnet Hx Hld.
  assert (forall j, coord m j = 1 -> (j < D)%nat) as Hin.
  { intros j Hj. destruct (decide (j < D)%nat) as [|Hge]; [done|].
    unfold coord in Hj. rewrite nth_overflow in Hj by lia. lra. }
  split.
  - destruct (forward_body_shape self B D i m layer Hm Hl Hlen Hnet x ld Hx Hld)
      as (s & t & ->).
    eexists _, _. split; [done|]. intros b j Hb Hj.
    rewrite ent_tab2 by auto. by apply forward_entry_masked.
  - destruct (inverse_body_shape self B D i m layer Hm Hl Hlen Hnet x ld Hx Hld)
      as (s & t & ->).
    eexists _, _. split; [done|]. intros b j Hb Hj.
    rewrite ent_tab2 by auto. by apply inverse_entry_masked.
Qed.

(** ** The forward expression against the specification's *)

(** C8. For a binary mask [m] and batches [x], [s], [t] of its dimension,
    with [x_masked = x * m] and [reversed_mask = 1 - m], the forward
    expression of the source and the single-mask expression of the
    specification both evaluate, to the same batch. *)
Theorem forward_expr_refines_spec B D (m : vec) (x s t : batch) :
  binary m -> length m = D ->
  shape B D x -> shape B D s -> shape B D t ->
  exists x_masked y : batch,
    top Rmult x (row m) = Ok x_masked /\
    forward_expr x_masked (Rminus 1 <$> m) x s t = Ok y /\
    spec_forward_expr x_masked (Rminus 1 <$> m) x s t = Ok y.
Proof.
  intros Hbin Hlen Hx Hs Ht.
  rewrite (tab_of_vec D m Hlen), (tab2_of_shape B D x Hx),
    (tab2_of_shape B D s Hs), (tab2_of_shape B D t Ht).
  set (mu := coord m). set (g := ent x).
  set (sigma := ent s). set (tau := ent t).
  exists (tab2 B D (masked_entry mu g)),
    (tab2 B D (forward_entry mu g sigma tau)).
  unfold forward_expr, spec_forward_expr.
  autorewrite with tensor. split; [done|]. split; [done|].
  f_equal. apply tab2_ext. intros b j _ Hj.
  unfold forward_entry, masked_entry.
  destruct (binary_coord D m j Hlen Hbin Hj) as [H | H];
    fold mu in H; rewrite H; ring.
Qed.

(** ** The loops against the specification's composition *)

Section broadcast_fmap.
Context {A B B' C : Type} (f : A -> B' -> result C) (h : B -> B').

Lemma zipM_fmap_r (xs : list A) (ys : list B) :
  zipM f xs (h <$> ys) = zipM (fun a b => f a (h b)) xs ys.
Proof.
  revert ys. induction xs as [|x xs IH]; intros [|y ys]; try done.
  cbn. by rewrite IH.
Qed.

Lemma forM_fmap (p : B' -> result C) (ys : list B) :
  forM p (h <$> ys) = forM (fun b => p (h b)) ys.
Proof. induction ys as [|y ys IH]; [done|]. cbn. by rewrite IH. Qed.

Lemma broadcast_fmap_r (xs : list A) (ys : list B) :
  broadcast f xs (h <$> ys) = broadcast (fun a b => f a (h b)) xs ys.
Proof.
  unfold broadcast. rewrite length_fmap.
  destruct (decide (length xs = length ys)); [apply zipM_fmap_r|].
  destruct xs as [|x [|x' xs]], ys as [|y [|y' ys]]; try done.
  - cbn. by rewrite forM_fmap.
Qed.
End broadcast_fmap.

Lemma vop_plus_opp (a r : vec) :
  vop Rplus a (Ropp <$> r) = vop Rminus a r.
Proof. unfold vop. by rewrite broadcast_fmap_r. Qed.

Section loops_against_spec.
Context (self : realnvp).

Lemma forward_body_accumulate i (m : vec) (layer : s_t) st :
  masks self !! i = Some m -> layers self !! i = Some layer ->
  forward_body self i st = accumulate (coupling_forward (m, layer)) st.
Proof.
  intros Hm Hl. destruct st as [x ld].
  unfold forward_body, accumulate, coupling_forward.
  rewrite (getitem_Some _ _ _ Hm), (getitem_Some _ _ _ Hl), !bind_Ok.
  destruct (top Rmult x (row m)) as [x_masked|e]; [|done].
  rewrite !bind_Ok. destruct (call layer x_masked) as [s t].
  by destruct (forward_expr _ _ _ _ _).
Qed.

Lemma inverse_body_accumulate i (m : vec) (layer : s_t) st :
  masks self !! i = Some m -> layers self !! i = Some layer ->
  inverse_body self i st = accumulate (coupling_inverse (m, layer)) st.
Proof.
  intros Hm Hl. destruct st as [y ld].
  unfold inverse_body, accumulate, coupling_inverse.
  rewrite (getitem_Some _ _ _ Hm), (getitem_Some _ _ _ Hl), !bind_Ok.
  destruct (top Rmult y (row m)) as [y_masked|e]; [|done].
  rewrite !bind_Ok. destruct (call layer y_masked) as [s t].
  destruct (inverse_expr _ _ _ _ _) as [x|e]; [|done].
  rewrite !bind_Ok. by rewrite vop_plus_opp.
Qed.

Lemma for_loop_forward_spec idx Ls st :
  Forall2 (names self) idx Ls ->
  for_loop (forward_body self) idx st = spec_flow coupling_forward Ls st.
Proof.
  intros H. revert st.
  induction H as [|i [m layer] idx Ls [Hm Hl] _ IH]; intros st; [done|].
  cbn [for_loop spec_flow]. rewrite (forward_body_accumulate i m layer) by done.
  destruct (accumulate _ st) as [st'|e]; [|done]. rewrite !bind_Ok. apply IH.
Qed.

Lemma for_loop_inverse_spec idx Ls st :
  Forall2 (names self) idx Ls ->
  for_loop (inverse_body self) idx st = spec_flow coupling_inverse Ls st.
Proof.
  intros H. revert st.
  induction H as [|i [m layer] idx Ls [Hm Hl] _ IH]; intros st; [done|].
  cbn [for_loop spec_flow]. rewrite (inverse_body_accumulate i m layer) by done.
  destruct (accumulate _ st) as [st'|e]; [|done]. rewrite !bind_Ok. apply IH.
Qed.

Lemma names_range :
  (length (masks self) <= length (layers self))%nat ->
  Forall2 (names self) (seq 0 (length (masks self))) (coupling_layers self).
Proof.
  intros Hle. unfold coupling_layers. apply Forall2_same_length_lookup.
  split.
  - rewrite length_seq, length_zip. lia.
  - intros i j [m layer] Hi Hz. apply lookup_seq in Hi as [-> _].
    apply lookup_zip_with_Some in Hz as (m' & l' & [= -> ->] & Hm & Hl).
    by split.
Qed.
End loops_against_spec.

Lemma coupling_round_trip B D (L : vec * s_t) (x : batch) :
  binary L.1 -> length L.1 = D -> s_t_contract B D L.2 -> shape B D x ->
  exists (y : batch) (d : vec),
    coupling_forward L x = Ok (y, d) /\
    coupling_inverse L y = Ok (x, Ropp <$> d).
Proof.
  destruct L as [m layer]. cbn [fst snd]. intros Hbin Hlen Hnet Hx.
  rewrite (tab_of_vec D m Hlen), (tab2_of_shape B D x Hx).
  set (g := ent x). set (mu := coord m).
  destruct (call layer (tab2 B D (masked_entry mu g))) as [s t] eqn:Hcall.
  destruct (Hnet (tab2 B D (masked_entry mu g)) (shape_tab2 _ _ _))
    as [Hs Ht].
  rewrite Hcall in Hs, Ht. cbn in Hs, Ht.
  rewrite (tab2_of_shape B D s Hs), (tab2_of_shape B D t Ht) in Hcall.
  exists (tab2 B D (forward_entry mu g (ent s) (ent t))),
    (tab B (row_sum D (ent s))).
  unfold coupling_forward, coupling_inverse, forward_expr, inverse_expr.
  autorewrite with tensor.
  change (fun b j => g b j * mu j) with (masked_entry mu g).
  rewrite Hcall. cbn iota beta. autorewrite with tensor.
  split; [done|].
  replace (tab2 B D (fun b j => forward_entry mu g (ent s) (ent t) b j * mu j))
    with (tab2 B D (masked_entry mu g)).
  2:{ apply tab2_ext. intros b j _ Hj. symmetry.
      apply (masked_forward_entry mu g (ent s) (ent t) b j).
      by apply (binary_coord D). }
  rewrite Hcall. cbn iota beta. autorewrite with tensor.
  do 2 f_equal. apply tab2_ext. intros b j _ Hj.
  pose proof (binary_coord D m j Hlen Hbin Hj) as Hmu.
  rewrite <- (masked_forward_entry mu g (ent s) (ent t) b j Hmu).
  apply (inverse_forward_entry mu g (ent s) (ent t) b j Hmu).
Qed.

(** C6. [forward] is the composition of the coupling layers
    [(masks[0], layers[0]), ..., (masks[n-1], layers[n-1])] in ascending
    order, each applied to the output of the one before; [inverse] is the
    composition of the same layers' inverse transforms in descending order,
    each with its own mask; both add the layers' log-determinant terms to
    an accumulator that starts at zero; and each layer's inverse transform
    undoes its forward transform. *)
Theorem flow_order layers0 masks0 distr0 self (x : batch) :
  realnvp_init layers0 masks0 distr0 = Ok self ->
  (length masks0 <= length layers0)%nat ->
  forward self x = spec_forward self x /\
  inverse self x = spec_inverse self x /\
  forall B D L (u : batch),
    L ∈ coupling_layers self ->
    binary L.1 -> length L.1 = D -> s_t_contract B D L.2 -> shape B D u ->
    exists (y : batch) (d : vec),
      coupling_forward L u = Ok (y, d) /\
      coupling_inverse L y = Ok (u, Ropp <$> d).
Proof.
  intros [= <-] Hle. split_and!.
  - apply for_loop_forward_spec. by apply names_range.
  - apply for_loop_inverse_spec. apply Forall2_reverse.
    by apply names_range.
  - intros B D L u _. apply coupling_round_trip.
Qed.

(** ** Witnesses on the masks of the source *)

Ltac eval_flow := cbv -[Rplus Rmult Rminus Ropp Rdiv Rinv exp IZR].
Ltac tensor_eq :=
  repeat match goal with
         | |- Ok _ = Ok _ => f_equal
         | |- pair _ _ = pair _ _ => f_equal
         | |- cons _ _ = cons _ _ => f_equal
         end.
Ltac binary_mask :=
  unfold binary;
  repeat (apply Forall_cons_2; [solve [left; reflexivity | right; reflexivity]|]);
  apply Forall_nil_2.

Lemma echo_net_contract B D : s_t_contract B D echo_net.
Proof. by intros x Hx. Qed.

Lemma const_net_contract B D (s0 c : vec) :
  length s0 = D -> length c = D -> s_t_contract B D (const_net s0 c).
Proof.
  intros Hs Hc x [Hlen _]. cbn.
  split; (split; [by rewrite length_fmap|]);
    apply Forall_fmap, Forall_forall; by intros.
Qed.

Lemma source_masks_binary : Forall binary source_masks.
Proof. repeat (apply Forall_cons_2; [binary_mask|]). apply Forall_nil_2. Qed.

Lemma echo_flow_well_formed B :
  well_formed B 2 (replicate 6 echo_net) source_masks.
Proof.
  split_and!.
  - apply source_masks_binary.
  - repeat (apply Forall_cons_2; [reflexivity|]). apply Forall_nil_2.
  - cbn. lia.
  - apply Forall_replicate, echo_net_contract.
Qed.

Lemma realnvp_round_trip_witness :
  (exists z ld ld', forward echo_flow [[1; 2]; [3; 4]] = Ok (z, ld) /\
                    inverse echo_flow z = Ok ([[1; 2]; [3; 4]], ld')) /\
  (exists z ld ld', inverse echo_flow [[1; 2]; [3; 4]] = Ok (z, ld) /\
                    forward echo_flow z = Ok ([[1; 2]; [3; 4]], ld')).
Proof.
  apply (realnvp_round_trip 2 (replicate 6 echo_net) source_masks normal_diag).
  - reflexivity.
  - apply echo_flow_well_formed.
  - repeat (apply Forall_cons_2; [reflexivity|]). apply Forall_nil_2.
Defined.

Lemma log_det_antisymmetry_witness :
  exists z x' log_det_for log_det_inv,
    forward echo_flow [[1; 2]; [3; 4]] = Ok (z, log_det_for) /\
    inverse echo_flow z = Ok (x', log_det_inv) /\
    log_det_for = Ropp <$> log_det_inv.
Proof.
  apply (log_det_antisymmetry 2 (replicate 6 echo_net) source_masks
           normal_diag).
  - reflexivity.
  - apply echo_flow_well_formed.
  - repeat (apply Forall_cons_2; [reflexivity|]). apply Forall_nil_2.
Defined.

Lemma pass_through_witness :
  (exists x' ld', forward_body echo_flow 0 ([[1; 2]; [3; 4]], [0; 0])
                    = Ok (x', ld') /\
     forall b j, (b < 2)%nat -> coord [0; 1] j = 1 ->
       ent x' b j = ent [[1; 2]; [3; 4]] b j) /\
  (exists y' ld', inverse_body echo_flow 0 ([[1; 2]; [3; 4]], [0; 0])
                    = Ok (y', ld') /\
     forall b j, (b < 2)%nat -> coord [0; 1] j = 1 ->
       ent y' b j = ent [[1; 2]; [3; 4]] b j).
Proof.
  apply (pass_through 2 2 echo_flow 0%nat [0; 1] echo_net).
  - reflexivity.
  - reflexivity.
  - binary_mask.
  - reflexivity.
  - apply echo_net_contract.
  - split; [reflexivity|].
    repeat (apply Forall_cons_2; [reflexivity|]). apply Forall_nil_2.
  - reflexivity.
Defined.

Lemma forward_expr_refines_spec_witness :
  exists x_masked y : batch,
    top Rmult [[1; 2]] (row [0; 1]) = Ok x_masked /\
    forward_expr x_masked (Rminus 1 <$> [0; 1]) [[1; 2]] [[3; 4]] [[5; 6]]
      = Ok y /\
    spec_forward_expr x_masked (Rminus 1 <$> [0; 1]) [[1; 2]] [[3; 4]]
      [[5; 6]] = Ok y.
Proof.
  apply (forward_expr_refines_spec 1 2 [0; 1] [[1; 2]] [[3; 4]] [[5; 6]]).
  - binary_mask.
  - reflexivity.
  - split; [reflexivity|]. apply Forall_cons_2; [reflexivity|apply Forall_nil_2].
  - split; [reflexivity|]. apply Forall_cons_2; [reflexivity|apply Forall_nil_2].
  - split; [reflexivity|]. apply Forall_cons_2; [reflexivity|apply Forall_nil_2].
Defined.

Lemma flow_order_witness :
  forward echo_flow [[1; 2]] = spec_forward echo_flow [[1; 2]] /\
  inverse echo_flow [[1; 2]] = spec_inverse echo_flow [[1; 2]] /\
  forall B D L (u : batch),
    L ∈ coupling_layers echo_flow ->
    binary L.1 -> length L.1 = D -> s_t_contract B D L.2 -> shape B D u ->
    exists (y : batch) (d : vec),
      coupling_forward L u = Ok (y, d) /\
      coupling_inverse L y = Ok (u, Ropp <$> d).
Proof.
  apply (flow_order (replicate 6 echo_net) source_masks normal_diag).
  - reflexivity.
  - cbn. lia.
Defined.

(** ** The log-determinant term of one layer *)

(** In one forward step the accumulator grows by the sum of [s] over all
    [D] coordinates of each sample, in one inverse step it shrinks by the
    same sum: the mask does not enter. *)
Lemma log_det_term_all_coordinates B D (self : realnvp) i (m : vec)
    (layer : s_t) (x : batch) (ld : vec) :
  masks self !! i = Some m -> layers self !! i = Some layer ->
  length m = D -> s_t_contract B D layer ->
  shape B D x -> length ld = B ->
  exists s t : batch,
    call layer (tab2 B D (masked_entry (coord m) (ent x)))
      = (tab2 B D (ent s), tab2 B D (ent t)) /\
    (exists x', forward_body self i (x, ld)
       = Ok (x', tab B (fun b => coord ld b + row_sum D (ent s) b))) /\
    (exists y', inverse_body self i (x, ld)
       = Ok (y', tab B (fun b => coord ld b - row_sum D (ent s) b))).
Proof.
  intros Hm Hl Hlen Hnet Hx Hld.
  destruct (call_shape B D m layer Hnet x Hx) as (s & t & Hcall).
  exists s, t. split; [done|].
  rewrite (tab_of_vec D m Hlen) in Hm.
  split; eexists.
  - rewrite (tab2_of_shape B D x Hx) at 1.
    rewrite (tab_of_vec B ld Hld) at 1.
    by apply (forward_body_tab self i B D layer (coord m)).
  - rewrite (tab2_of_shape B D x Hx) at 1.
    rewrite (tab_of_vec B ld Hld) at 1.
    by apply (inverse_body_tab self i B D layer (coord m)).
Qed.

(** C2, on the code.  One layer with mask [[0, 1]] whose network returns
    [s = [1, 1]] and [t = [0, 0]], on the sample [[1, 2]]: the forward pass
    maps it to [[e, 2]] and returns the log-determinant 2, the inverse pass
    maps that back and returns -2, while the sum of [s] over the unmasked
    coordinate is 1. *)
Theorem log_det_counts_masked_coordinate :
  realnvp_init [const_net [1; 1] [0; 0]] [[0; 1]] normal_diag
    ≫= (fun self => forward self [[1; 2]])
  = Ok ([[exp 1; 2]], [2]) /\
  realnvp_init [const_net [1; 1] [0; 0]] [[0; 1]] normal_diag
    ≫= (fun self => inverse self [[exp 1; 2]])
  = Ok ([[1; 2]], [-2]) /\
  spec_unmasked_sum [0; 1] [1; 1] = 1.
Proof.
  split_and!.
  - eval_flow. tensor_eq; ring.
  - eval_flow. tensor_eq; try ring.
    replace (1 * (1 - 0)) with 1 by ring.
    replace ((1 - 0) * (exp 1 - 0 * (1 - 0)) * exp (- (1)) + exp 1 * 0)
      with (exp 1 * exp (- (1))) by ring.
    apply exp_cancel.
  - unfold spec_unmasked_sum. cbn.
    destruct (Req_dec_T 0 0) as [_|H]; [|lra].
    destruct (Req_dec_T 1 0) as [H|_]; lra.
Qed.

(** ** Construction *)

(** C4, as the code has it.  [realnvp.__init__] checks nothing: for every
    list of masks, binary or not, it returns the object that holds the
    arguments as given, with [num_cl] the number of masks. *)
Theorem init_accepts_every_mask (layers0 : list s_t) (masks0 : list vec)
    (distr0 : distribution) :
  realnvp_init layers0 masks0 distr0
  = Ok {| num_cl := length masks0; distr := distr0;
          masks := masks0; layers := layers0 |}.
Proof. reflexivity. Qed.

(** C4 fails as stated: the mask [[1/2, 2]] is not binary, and the
    constructor returns an object that holds it. *)
Lemma init_accepts_non_binary_mask :
  ~ binary [1 / 2; 2] /\
  exists self,
    realnvp_init [const_net [0; 0] [0; 0]] [[1 / 2; 2]] normal_diag
      = Ok self /\
    masks self = [[1 / 2; 2]].
Proof.
  split.
  - intros H. apply Forall_cons_1 in H as [[H | H] _]; lra.
  - eexists. split; reflexivity.
Qed.

(** ** Log-likelihood *)

(** C7. [log_likelihood x] runs [inverse x] once; if that returns
    [(z, log_det)] the result is [distr.log_prob(z) + log_det], and an
    exception of [inverse] is the exception of [log_likelihood]. *)
Theorem log_likelihood_change_of_variables (self : realnvp) (x : batch) :
  log_likelihood self x
  = match inverse self x with
    | Ok (z, log_det) => vop Rplus (log_prob (distr self) z) log_det
    | Raise e => Raise e
    end.
Proof.
  unfold log_likelihood. by destruct (inverse self x) as [[z ld]|e].
Qed.

(** On a well-formed flow whose distribution scores each sample with one
    number, the sum is taken sample by sample. *)
Lemma log_likelihood_well_formed D layers0 masks0 distr0 self (x : batch) :
  realnvp_init layers0 masks0 distr0 = Ok self ->
  well_formed (length x) D layers0 masks0 ->
  Forall (fun r : vec => length r = D) x ->
  (forall y : batch, length (log_prob distr0 y) = length y) ->
  exists (z : batch) (log_det : vec),
    inverse self x = Ok (z, log_det) /\
    log_likelihood self x
    = Ok (zip_with Rplus (log_prob distr0 z) log_det).
Proof.
  intros Hinit Hwf Hx%shape_here Hlp.
  destruct (inverse_forward_flow _ _ _ _ _ _ x Hinit Hwf Hx)
    as (z & dl & [Hz _] & Hi & _).
  eexists _, _. split; [done|].
  unfold log_likelihood. rewrite Hi, bind_Ok.
  injection Hinit as <-. cbn [distr].
  rewrite (tab_of_vec (length x) (log_prob distr0 z)) by (by rewrite Hlp).
  rewrite vop_tab. f_equal.
  unfold tab. by rewrite zip_with_fmap_l, zip_with_fmap_r, zip_with_diag.
Qed.

(** ** The end-to-end scenario *)


(** ** The flow without layers *)

(** C10. With an empty list of masks, [forward] and [inverse] return their
    input unchanged with a log-determinant of zero for every sample, and
    [log_likelihood] returns [distr.log_prob] of the input, for a
    distribution that scores each sample with one number. *)
Theorem empty_flow (layers0 : list s_t) (distr0 : distribution)
    (self : realnvp) (x : batch) :
  realnvp_init layers0 [] distr0 = Ok self ->
  length (log_prob distr0 x) = length x ->
  forward self x = Ok (x, zeros (length x)) /\
  inverse self x = Ok (x, zeros (length x)) /\
  log_likelihood self x = Ok (log_prob distr0 x).
Proof.
  intros [= <-] Hlp. split_and!; [done..|].
  unfold log_likelihood, inverse. cbn.
  rewrite (tab_of_vec (length x) (log_prob distr0 x) Hlp), zeros_tab.
  rewrite vop_tab. f_equal. apply tab_ext. intros; lra.
Qed.

Lemma empty_flow_witness :
  forward {| num_cl := 0; distr := normal_diag; masks := [];
             layers := [echo_net] |} [[1; 2]] = Ok ([[1; 2]], zeros 1) /\
  inverse {| num_cl := 0; distr := normal_diag; masks := [];
             layers := [echo_net] |} [[1; 2]] = Ok ([[1; 2]], zeros 1) /\
  log_likelihood {| num_cl := 0; distr := normal_diag; masks := [];
                    layers := [echo_net] |} [[1; 2]]
  = Ok (log_prob normal_diag [[1; 2]]).
Proof.
  apply (empty_flow [echo_net] normal_diag _ [[1; 2]]); reflexivity.
Defined.

(** * Further properties of the flow *)

(** ** The loops on well-shaped operands, for any mask values *)

Section loop_shape.
Context (self : realnvp) (B D : nat).

Lemma forward_body_total i (x : batch) :
  shaped_index self B D i -> shape B D x ->
  exists (x' : batch) (dl : nat -> R),
    shape B D x' /\
    forall a : nat -> R,
      forward_body self i (x, tab B a)
        = Ok (x', tab B (fun b => a b + dl b)).
Proof.
  intros (m & layer & Hm & Hlen & Hl & Hnet) Hx.
  destruct (call_shape B D m layer Hnet x Hx) as (s & t & Hcall).
  rewrite (tab_of_vec D m Hlen) in Hm.
  exists (tab2 B D (forward_entry (coord m) (ent x) (ent s) (ent t))),
    (row_sum D (ent s)).
  split; [apply shape_tab2|]. intros a.
  rewrite (tab2_of_shape B D x Hx) at 1.
  by apply (forward_body_tab self i B D layer (coord m)).
Qed.

Lemma inverse_body_total i (x : batch) :
  shaped_index self B D i -> shape B D x ->
  exists (x' : batch) (dl : nat -> R),
    shape B D x' /\
    forall a : nat -> R,
      inverse_body self i (x, tab B a)
        = Ok (x', tab B (fun b => a b - dl b)).
Proof.
  intros (m & layer & Hm & Hlen & Hl & Hnet) Hx.
  destruct (call_shape B D m layer Hnet x Hx) as (s & t & Hcall).
  rewrite (tab_of_vec D m Hlen) in Hm.
  exists (tab2 B D (inverse_entry (coord m) (ent x) (ent s) (ent t))),
    (row_sum D (ent s)).
  split; [apply shape_tab2|]. intros a.
  rewrite (tab2_of_shape B D x Hx) at 1.
  by apply (inverse_body_tab self i B D layer (coord m)).
Qed.

Lemma forward_loop_total (idx : list nat) :
  Forall (shaped_index self B D) idx ->
  forall x : batch, shape B D x ->
  exists (x' : batch) (dl : nat -> R),
    shape B D x' /\
    forall a : nat -> R,
      for_loop (forward_body self) idx (x, tab B a)
        = Ok (x', tab B (fun b => a b + dl b)).
Proof.
  induction 1 as [|i idx Hi _ IH]; intros x Hx.
  - exists x, (fun _ => 0). split; [done|]. intros a. cbn.
    do 2 f_equal. apply tab_ext. intros; lra.
  - destruct (forward_body_total i x Hi Hx) as (x1 & d1 & Hx1 & Hstep).
    destruct (IH x1 Hx1) as (x' & d' & Hx' & Hloop).
    exists x', (fun b => d1 b + d' b). split; [done|]. intros a.
    cbn [for_loop]. rewrite Hstep, bind_Ok, Hloop.
    do 2 f_equal. apply tab_ext. intros; lra.
Qed.

Lemma inverse_loop_total (idx : list nat) :
  Forall (shaped_index self B D) idx ->
  forall x : batch, shape B D x ->
  exists (x' : batch) (dl : nat -> R),
    shape B D x' /\
    forall a : nat -> R,
      for_loop (inverse_body self) idx (x, tab B a)
        = Ok (x', tab B (fun b => a b - dl b)).
Proof.
  induction 1 as [|i idx Hi _ IH]; intros x Hx.
  - exists x, (fun _ => 0). split; [done|]. intros a. cbn.
    do 2 f_equal. apply tab_ext. intros; lra.
  - destruct (inverse_body_total i x Hi Hx) as (x1 & d1 & Hx1 & Hstep).
    destruct (IH x1 Hx1) as (x' & d' & Hx' & Hloop).
    exists x', (fun b => d1 b + d' b). split; [done|]. intros a.
    cbn [for_loop]. rewrite Hstep, bind_Ok, Hloop.
    do 2 f_equal. apply tab_ext. intros; lra.
Qed.
End loop_shape.

Lemma well_shaped_index B D layers0 masks0 distr0 self i :
  realnvp_init layers0 masks0 distr0 = Ok self ->
  Forall (fun m : vec => length m = D) masks0 ->
  Forall (s_t_contract B D) layers0 ->
  (i < length masks0)%nat -> (i < length layers0)%nat ->
  shaped_index self B D i.
Proof.
  intros [= <-] Hlen Hnet Him Hil.
  destruct (lookup_lt_is_Some_2 masks0 i Him) as [m Hm].
  destruct (lookup_lt_is_Some_2 layers0 i Hil) as [layer Hl].
  exists m, layer. cbn [masks layers].
  rewrite Forall_lookup in Hlen. rewrite Forall_lookup in Hnet.
  split_and!; eauto.
Qed.

Lemma well_shaped_indices B D layers0 masks0 distr0 self :
  realnvp_init layers0 masks0 distr0 = Ok self ->
  well_shaped B D layers0 masks0 ->
  Forall (shaped_index self B D) (seq 0 (num_cl self)).
Proof.
  intros Hinit (Hlen & Hle & Hnet).
  apply Forall_forall. intros i Hi. apply elem_of_seq in Hi.
  injection Hinit as <-. cbn [num_cl] in Hi.
  apply (well_shaped_index B D layers0 masks0 distr0); [done..|lia|lia].
Qed.

(** X1. On a batch of shape [(B, D)], with masks of dimension [D] (their
    values are free), one feature network per mask, each keeping the
    shape: [forward] and [inverse] raise nothing, return a batch of the
    shape of the input and one log-determinant per sample. *)
Theorem forward_inverse_keep_shape D layers0 masks0 distr0 self (x : batch) :
  realnvp_init layers0 masks0 distr0 = Ok self ->
  well_shaped (length x) D layers0 masks0 ->
  Forall (fun r : vec => length r = D) x ->
  (exists z ld, forward self x = Ok (z, ld) /\
                shape (length x) D z /\ length ld = length x) /\
  (exists z ld, inverse self x = Ok (z, ld) /\
                shape (length x) D z /\ length ld = length x).
Proof.
  intros Hinit Hws Hx%shape_here.
  pose proof (well_shaped_indices _ _ _ _ _ _ Hinit Hws) as Hidx.
  split.
  - destruct (forward_loop_total self _ D _ Hidx x Hx) as (z & dl & Hz & Hl).
    eexists z, _. unfold forward. rewrite zeros_tab, Hl.
    split; [done|]. split; [done|]. apply length_tab.
  - apply Forall_reverse in Hidx.
    destruct (inverse_loop_total self _ D _ Hidx x Hx) as (z & dl & Hz & Hl).
    eexists z, _. unfold inverse. rewrite zeros_tab, Hl.
    split; [done|]. split; [done|]. apply length_tab.
Qed.

Lemma forward_inverse_keep_shape_witness :
  (exists z ld,
     realnvp_init [echo_net] [[1 / 2; 3]] normal_diag
       ≫= (fun self => forward self [[1; 2]]) = Ok (z, ld) /\
     shape 1 2 z /\ length ld = 1%nat) /\
  (exists z ld,
     realnvp_init [echo_net] [[1 / 2; 3]] normal_diag
       ≫= (fun self => inverse self [[1; 2]]) = Ok (z, ld) /\
     shape 1 2 z /\ length ld = 1%nat).
Proof.
  apply (forward_inverse_keep_shape 2 [echo_net] [[1 / 2; 3]] normal_diag
           _ [[1; 2]]).
  - reflexivity.
  - split_and!.
    + apply Forall_cons_2; [reflexivity|apply Forall_nil_2].
    + cbn. lia.
    + apply Forall_cons_2; [apply echo_net_contract|apply Forall_nil_2].
  - apply Forall_cons_2; [reflexivity|apply Forall_nil_2].
Defined.

(** ** Exceptions *)

Lemma for_loop_raise {S : Type} (body : nat -> S -> result S) l1 i l2
    (st st' : S) (e : exn) :
  for_loop body l1 st = Ok st' -> body i st' = Raise e ->
  for_loop body (l1 ++ i :: l2) st = Raise e.
Proof.
  intros H1 Hi. rewrite for_loop_app, H1, bind_Ok.
  cbn [for_loop]. by rewrite Hi.
Qed.

Section missing_layer.
Context (self : realnvp) (B D i : nat) (m : vec).
Hypothesis Hmask : masks self !! i = Some m.
Hypothesis Hlen : length m = D.
Hypothesis Hnone : layers self !! i = None.

Lemma forward_body_index_error (x : batch) (ld : vec) :
  shape B D x -> forward_body self i (x, ld) = Raise IndexError.
Proof.
  intros Hx. unfold forward_body.
  rewrite (getitem_Some _ _ _ Hmask), bind_Ok.
  rewrite (tab2_of_shape B D x Hx), (tab_of_vec D m Hlen) at 1.
  rewrite top_tab_row_r, bind_Ok. unfold getitem. by rewrite Hnone.
Qed.

Lemma inverse_body_index_error (x : batch) (ld : vec) :
  shape B D x -> inverse_body self i (x, ld) = Raise IndexError.
Proof.
  intros Hx. unfold inverse_body.
  rewrite (getitem_Some _ _ _ Hmask), bind_Ok.
  rewrite (tab2_of_shape B D x Hx), (tab_of_vec D m Hlen) at 1.
  rewrite top_tab_row_r, bind_Ok. unfold getitem. by rewrite Hnone.
Qed.
End missing_layer.

(** X2. With fewer feature networks than masks, on a batch of the masks'
    dimension: [forward] runs the layers that have a network and then
    raises [IndexError], [inverse] raises it at its first step, and so
    does [log_likelihood]. *)
Theorem missing_layer_raises D layers0 masks0 distr0 self (x : batch) :
  realnvp_init layers0 masks0 distr0 = Ok self ->
  Forall (fun m : vec => length m = D) masks0 ->
  Forall (s_t_contract (length x) D) layers0 ->
  (length layers0 < length masks0)%nat ->
  Forall (fun r : vec => length r = D) x ->
  forward self x = Raise IndexError /\
  inverse self x = Raise IndexError /\
  log_likelihood self x = Raise IndexError.
Proof.
  intros Hinit Hlen Hnet Hlt Hx%shape_here.
  assert (inverse self x = Raise IndexError) as Hinv.
  { unfold inverse. injection Hinit as <-. cbn [num_cl].
    destruct (length masks0) as [|n] eqn:Hn; [lia|].
    rewrite seq_S, reverse_snoc. cbn [for_loop Nat.add].
    destruct (lookup_lt_is_Some_2 masks0 n) as [m Hm]; [lia|].
    rewrite (inverse_body_index_error _ (length x) D n m); first done.
    - done.
    - rewrite Forall_lookup in Hlen. by eapply Hlen.
    - apply lookup_ge_None_2. cbn. lia.
    - done. }
  split_and!; [|done|unfold log_likelihood; by rewrite Hinv].
  unfold forward.
  set (k := length layers0).
  assert (num_cl self = (k + S (length masks0 - S k))%nat) as ->.
  { injection Hinit as <-. cbn. lia. }
  rewrite seq_app. cbn [seq Nat.add].
  assert (Forall (shaped_index self (length x) D) (seq 0 k)) as Hidx.
  { apply Forall_forall. intros i Hi. apply elem_of_seq in Hi.
    apply (well_shaped_index _ D layers0 masks0 distr0); [done..|lia|lia]. }
  destruct (forward_loop_total self _ D _ Hidx x Hx) as (x' & dl & Hx' & Hl).
  rewrite zeros_tab.
  destruct (lookup_lt_is_Some_2 masks0 k) as [m Hm]; [lia|].
  injection Hinit as <-.
  eapply for_loop_raise; [apply Hl|].
  apply (forward_body_index_error _ (length x) D k m).
  - done.
  - rewrite Forall_lookup in Hlen. by eapply Hlen.
  - by apply lookup_ge_None_2.
  - done.
Qed.

Lemma missing_layer_raises_witness :
  forward {| num_cl := 2; distr := normal_diag; masks := toy_masks;
             layers := [echo_net] |} [[1; 2]] = Raise IndexError /\
  inverse {| num_cl := 2; distr := normal_diag; masks := toy_masks;
             layers := [echo_net] |} [[1; 2]] = Raise IndexError /\
  log_likelihood {| num_cl := 2; distr := normal_diag; masks := toy_masks;
                    layers := [echo_net] |} [[1; 2]] = Raise IndexError.
Proof.
  apply (missing_layer_raises 2 [echo_net] toy_masks normal_diag _ [[1; 2]]).
  - reflexivity.
  - repeat (apply Forall_cons_2; [reflexivity|]). apply Forall_nil_2.
  - apply Forall_cons_2; [apply echo_net_contract|apply Forall_nil_2].
  - cbn. lia.
  - apply Forall_cons_2; [reflexivity|apply Forall_nil_2].
Defined.

Lemma vop_mismatch op (r m : vec) :
  length r <> length m -> length r <> 1%nat -> length m <> 1%nat ->
  vop op r m = Raise InvalidArgumentError.
Proof.
  intros Hne Hr Hm. unfold vop, broadcast.
  rewrite decide_False by done.
  by destruct r as [|a [|a' r]], m as [|c [|c' m]].
Qed.

Lemma top_row_mismatch op (x : batch) (r : vec) (m : vec) :
  length r <> length m -> length r <> 1%nat -> length m <> 1%nat ->
  top op (r :: x) (row m) = Raise InvalidArgumentError.
Proof.
  intros Hne Hr Hm. unfold top, row, broadcast.
  destruct x as [|r' x].
  - cbn. by rewrite (vop_mismatch op r m).
  - rewrite decide_False by (cbn; lia).
    change (forM (fun y => vop op y m) (r :: r' :: x)
            = Raise InvalidArgumentError).
    cbn [forM]. by rewrite (vop_mismatch op r m).
Qed.

(** X3. A non-empty batch whose rows have a dimension [D'] other than the
    dimension [D] of the masks, neither of them 1, makes [forward],
    [inverse] and [log_likelihood] of a flow with at least one mask fail
    with the shape error of the first multiplication by a mask, before any
    feature network is looked up or called. *)
Theorem dimension_mismatch_raises D D' layers0 masks0 distr0 self
    (r : vec) (x : batch) :
  realnvp_init layers0 masks0 distr0 = Ok self ->
  masks0 <> [] ->
  Forall (fun m : vec => length m = D) masks0 ->
  length r = D' ->
  D' <> D -> D' <> 1%nat -> D <> 1%nat ->
  forward self (r :: x) = Raise InvalidArgumentError /\
  inverse self (r :: x) = Raise InvalidArgumentError /\
  log_likelihood self (r :: x) = Raise InvalidArgumentError.
Proof.
  intros [= <-] Hne Hlen Hr HD HD' HD1.
  rewrite Forall_lookup in Hlen.
  assert (forall i m ld, masks0 !! i = Some m ->
            forward_body
              {| num_cl := length masks0; distr := distr0;
                 masks := masks0; layers := layers0 |} i (r :: x, ld)
            = Raise InvalidArgumentError) as Hf.
  { intros i m ld Hm. unfold forward_body. cbn [masks].
    rewrite (getitem_Some _ _ _ Hm), bind_Ok.
    pose proof (Hlen i m Hm) as Hm'. cbn beta in Hm'.
    rewrite top_row_mismatch; [done|lia..]. }
  assert (forall i m ld, masks0 !! i = Some m ->
            inverse_body
              {| num_cl := length masks0; distr := distr0;
                 masks := masks0; layers := layers0 |} i (r :: x, ld)
            = Raise InvalidArgumentError) as Hi.
  { intros i m ld Hm. unfold inverse_body. cbn [masks].
    rewrite (getitem_Some _ _ _ Hm), bind_Ok.
    pose proof (Hlen i m Hm) as Hm'. cbn beta in Hm'.
    rewrite top_row_mismatch; [done|lia..]. }
  assert (inverse {| num_cl := length masks0; distr := distr0;
                     masks := masks0; layers := layers0 |} (r :: x)
          = Raise InvalidArgumentError) as Hinv.
  { unfold inverse. cbn [num_cl].
    destruct (length masks0) as [|n] eqn:Hn.
    { by destruct masks0. }
    rewrite seq_S, reverse_snoc. cbn [for_loop Nat.add].
    destruct (lookup_lt_is_Some_2 masks0 n) as [m Hm]; [lia|].
    by rewrite (Hi n m _ Hm). }
  split_and!; [|done|unfold log_likelihood; by rewrite Hinv].
  unfold forward. cbn [num_cl].
  destruct masks0 as [|m masks0]; [done|].
  cbn [length seq for_loop]. by rewrite (Hf 0%nat m).
Qed.

Lemma dimension_mismatch_raises_witness :
  forward echo_flow [[1; 2; 3]] = Raise InvalidArgumentError /\
  inverse echo_flow [[1; 2; 3]] = Raise InvalidArgumentError /\
  log_likelihood echo_flow [[1; 2; 3]] = Raise InvalidArgumentError.
Proof.
  apply (dimension_mismatch_raises 2 3 (replicate 6 echo_net) source_masks
           normal_diag echo_flow [1; 2; 3] []).
  - reflexivity.
  - discriminate.
  - repeat (apply Forall_cons_2; [reflexivity|]). apply Forall_nil_2.
  - reflexivity.
  - lia.
  - lia.
  - lia.
Defined.

(** ** What a loop body reads of the flow *)

Lemma forward_body_ext (s1 s2 : realnvp) i j st :
  masks s1 !! i = masks s2 !! j -> layers s1 !! i = layers s2 !! j ->
  forward_body s1 i st = forward_body s2 j st.
Proof.
  intros Hm Hl. destruct st as [x ld].
  unfold forward_body, getitem. by rewrite Hm, Hl.
Qed.

Lemma inverse_body_ext (s1 s2 : realnvp) i j st :
  masks s1 !! i = masks s2 !! j -> layers s1 !! i = layers s2 !! j ->
  inverse_body s1 i st = inverse_body s2 j st.
Proof.
  intros Hm Hl. destruct st as [x ld].
  unfold inverse_body, getitem. by rewrite Hm, Hl.
Qed.

Lemma for_loop_ext {S : Type} (body1 body2 : nat -> S -> result S) idx st :
  (forall i st', i ∈ idx -> body1 i st' = body2 i st') ->
  for_loop body1 idx st = for_loop body2 idx st.
Proof.
  revert st. induction idx as [|i idx IH]; intros st Hext; [done|].
  cbn [for_loop]. rewrite Hext by apply list_elem_of_here.
  destruct (body2 i st) as [st'|e]; [|done]. rewrite !bind_Ok.
  apply IH. intros k st'' Hk. apply Hext. by apply list_elem_of_further.
Qed.


(** X4. Feature networks past the number of masks are never used: with at
    least one network per mask, appending networks to the list changes no
    result and no exception of [forward], [inverse] and [log_likelihood],
    on any input. *)
Theorem extra_layers_unused layers0 extra masks0 distr0 self self'
    (x : batch) :
  realnvp_init layers0 masks0 distr0 = Ok self ->
  realnvp_init (layers0 ++ extra) masks0 distr0 = Ok self' ->
  (length masks0 <= length layers0)%nat ->
  forward self' x = forward self x /\
  inverse self' x = inverse self x /\
  log_likelihood self' x = log_likelihood self x.
Proof.
  intros [= <-] [= <-] Hle.
  assert (forall i, (i < length masks0)%nat ->
            (layers0 ++ extra) !! i = layers0 !! i) as Hl.
  { intros i Hi. apply lookup_app_l. lia. }
  assert (inverse {| num_cl := length masks0; distr := distr0;
                     masks := masks0; layers := layers0 ++ extra |} x
          = inverse {| num_cl := length masks0; distr := distr0;
                       masks := masks0; layers := layers0 |} x) as Hinv.
  { unfold inverse. cbn [num_cl]. apply for_loop_ext.
    intros i st Hi. apply elem_of_reverse, elem_of_seq in Hi.
    apply inverse_body_ext; cbn [masks layers]; [done|]. apply Hl. lia. }
  split_and!; [|done|unfold log_likelihood; by rewrite Hinv].
  unfold forward. cbn [num_cl]. apply for_loop_ext.
  intros i st Hi. apply elem_of_seq in Hi.
  apply forward_body_ext; cbn [masks layers]; [done|]. apply Hl. lia.
Qed.

Lemma extra_layers_unused_witness :
  forward {| num_cl := 2; distr := normal_diag; masks := toy_masks;
             layers := [echo_net; echo_net] ++ [const_net [1; 1] [0; 0]] |}
    [[1; 2]]
  = forward {| num_cl := 2; distr := normal_diag; masks := toy_masks;
               layers := [echo_net; echo_net] |} [[1; 2]] /\
  inverse {| num_cl := 2; distr := normal_diag; masks := toy_masks;
             layers := [echo_net; echo_net] ++ [const_net [1; 1] [0; 0]] |}
    [[1; 2]]
  = inverse {| num_cl := 2; distr := normal_diag; masks := toy_masks;
               layers := [echo_net; echo_net] |} [[1; 2]] /\
  log_likelihood
    {| num_cl := 2; distr := normal_diag; masks := toy_masks;
       layers := [echo_net; echo_net] ++ [const_net [1; 1] [0; 0]] |}
    [[1; 2]]
  = log_likelihood {| num_cl := 2; distr := normal_diag; masks := toy_masks;
                      layers := [echo_net; echo_net] |} [[1; 2]].
Proof.
  apply (extra_layers_unused [echo_net; echo_net]
           [const_net [1; 1] [0; 0]] toy_masks normal_diag).
  - reflexivity.
  - reflexivity.
  - cbn. lia.
Defined.

(** ** Flows in sequence *)

Lemma zip_with_tab {A B C : Type} (op : A -> B -> C) n
    (g : nat -> A) (h : nat -> B) :
  zip_with op (tab n g) (tab n h) = tab n (fun i => op (g i) (h i)).
Proof.
  unfold tab. by rewrite zip_with_fmap_l, zip_with_fmap_r, zip_with_diag.
Qed.




(** ** The density of a generated sample *)

(** X6. For a sample [x] generated by [forward] from a latent batch [z],
    on a well-formed flow: [log_likelihood x] is [distr.log_prob(z)] minus
    the log-determinant that [forward] returned with [x]. *)
Theorem generated_sample_density D layers0 masks0 distr0 self (z : batch) :
  realnvp_init layers0 masks0 distr0 = Ok self ->
  well_formed (length z) D layers0 masks0 ->
  Forall (fun r : vec => length r = D) z ->
  length (log_prob distr0 z) = length z ->
  exists (x : batch) (log_det_for : vec),
    forward self z = Ok (x, log_det_for) /\
    log_likelihood self x
    = Ok (zip_with Rminus (log_prob distr0 z) log_det_for).
Proof.
  intros Hinit Hwf Hz%shape_here Hlp.
  destruct (forward_inverse_flow _ _ _ _ _ _ z Hinit Hwf Hz)
    as (x & dl & _ & Hf & Hi).
  exists x, (tab (length z) dl). split; [done|].
  unfold log_likelihood. rewrite Hi, bind_Ok.
  injection Hinit as <-. cbn [distr].
  rewrite (tab_of_vec (length z) (log_prob distr0 z) Hlp).
  by rewrite vop_tab, zip_with_tab.
Qed.

Lemma generated_sample_density_witness :
  exists (x : batch) (log_det_for : vec),
    forward echo_flow [[1; 2]; [3; 4]] = Ok (x, log_det_for) /\
    log_likelihood echo_flow x
    = Ok (zip_with Rminus (log_prob normal_diag [[1; 2]; [3; 4]])
            log_det_for).
Proof.
  apply (generated_sample_density 2 (replicate 6 echo_net) source_masks
           normal_diag echo_flow [[1; 2]; [3; 4]]).
  - reflexivity.
  - apply echo_flow_well_formed.
  - repeat (apply Forall_cons_2; [reflexivity|]). apply Forall_nil_2.
  - reflexivity.
Defined.

(** ** What one coupling step computes *)

Section step_semantics.
Context (self : realnvp) (B D i : nat) (m : vec) (layer : s_t).
Hypothesis Hmask : masks self !! i = Some m.
Hypothesis Hlayer : layers self !! i = Some layer.
Hypothesis Hlen : length m = D.
Hypothesis Hnet : s_t_contract B D layer.

Lemma step_operands (x : batch) :
  shape B D x ->
  exists x_masked s t : batch,
    top Rmult x (row m) = Ok x_masked /\
    call layer x_masked = (s, t) /\
    shape B D s /\ shape B D t /\
    x_masked = tab2 B D (masked_entry (coord m) (ent x)).
Proof.
  intros Hx.
  set (xm := tab2 B D (masked_entry (coord m) (ent x))).
  destruct (call layer xm) as [s t] eqn:Hcall.
  destruct (Hnet xm (shape_tab2 _ _ _)) as [Hs Ht].
  rewrite Hcall in Hs, Ht. cbn in Hs, Ht.
  exists xm, s, t. split_and!; try done.
  rewrite (tab2_of_shape B D x Hx), (tab_of_vec D m Hlen) at 1.
  by rewrite top_tab_row_r.
Qed.

Lemma step_results (x : batch) (ld : vec) :
  shape B D x -> length ld = B ->
  exists x_masked s t : batch,
    top Rmult x (row m) = Ok x_masked /\
    call layer x_masked = (s, t) /\
    forward_body self i (x, ld)
    = Ok (tab2 B D (forward_entry (coord m) (ent x) (ent s) (ent t)),
          zip_with Rplus ld (reduce_sum s)) /\
    inverse_body self i (x, ld)
    = Ok (tab2 B D (inverse_entry (coord m) (ent x) (ent s) (ent t)),
          zip_with Rminus ld (reduce_sum s)).
Proof.
  intros Hx Hld.
  destruct (step_operands x Hx) as (xm & s & t & Hxm & Hcall & Hs & Ht & ->).
  eexists _, s, t. split; [done|]. split; [done|].
  assert (zip_with Rplus ld (reduce_sum s)
          = tab B (fun b => coord ld b + row_sum D (ent s) b)) as ->.
  { rewrite (tab_of_vec B ld Hld), (tab2_of_shape B D s Hs) at 1.
    by rewrite reduce_sum_tab, zip_with_tab. }
  assert (zip_with Rminus ld (reduce_sum s)
          = tab B (fun b => coord ld b - row_sum D (ent s) b)) as ->.
  { rewrite (tab_of_vec B ld Hld), (tab2_of_shape B D s Hs) at 1.
    by rewrite reduce_sum_tab, zip_with_tab. }
  rewrite (tab2_of_shape B D s Hs), (tab2_of_shape B D t Ht) in Hcall.
  pose proof Hmask as Hm'. rewrite (tab_of_vec D m Hlen) in Hm'.
  split.
  - rewrite (tab2_of_shape B D x Hx), (tab_of_vec B ld Hld) at 1.
    by apply (forward_body_tab self i B D layer (coord m)).
  - rewrite (tab2_of_shape B D x Hx), (tab_of_vec B ld Hld) at 1.
    by apply (inverse_body_tab self i B D layer (coord m)).
Qed.
End step_semantics.

(** X7. In one coupling step with mask [m], at every coordinate [j] with
    [m_j = 0]: the forward step returns [x_j * exp(s_j) + t_j] and the
    inverse step [(x_j - t_j) * exp(-s_j)], where [(s, t)] is what the
    feature network returns on the masked input [x * m]. *)
Theorem affine_on_unmasked B D (self : realnvp) i (m : vec) (layer : s_t)
    (x : batch) (ld : vec) :
  masks self !! i = Some m ->
  layers self !! i = Some layer ->
  length m = D ->
  s_t_contract B D layer ->
  shape B D x -> length ld = B ->
  exists x_masked s t : batch,
    top Rmult x (row m) = Ok x_masked /\
    call layer x_masked = (s, t) /\
    (exists x' ld', forward_body self i (x, ld) = Ok (x', ld') /\
       forall b j, (b < B)%nat -> (j < D)%nat -> coord m j = 0 ->
         ent x' b j = ent x b j * exp (ent s b j) + ent t b j) /\
    (exists y' ld', inverse_body self i (x, ld) = Ok (y', ld') /\
       forall b j, (b < B)%nat -> (j < D)%nat -> coord m j = 0 ->
         ent y' b j = (ent x b j - ent t b j) * exp (- ent s b j)).
Proof.
  intros Hm Hl Hlen Hnet Hx Hld.
  destruct (step_results self B D i m layer Hm Hl Hlen Hnet x ld Hx Hld)
    as (xm & s & t & Hxm & Hcall & Hf & Hi).
  exists xm, s, t. split; [done|]. split; [done|]. split.
  - eexists _, _. split; [apply Hf|]. intros b j Hb Hj H0.
    rewrite ent_tab2 by done. by apply forward_entry_unmasked.
  - eexists _, _. split; [apply Hi|]. intros b j Hb Hj H0.
    rewrite ent_tab2 by done. by apply inverse_entry_unmasked.
Qed.

(** X8. In one coupling step the log-determinant accumulator grows, in
    the forward direction, by [tf.reduce_sum(s, [1])], the sum of the
    scale output over all its coordinates, masked ones included, and
    shrinks by the same amount in the inverse direction. *)
Theorem log_det_term B D (self : realnvp) i (m : vec) (layer : s_t)
    (x : batch) (ld : vec) :
  masks self !! i = Some m ->
  layers self !! i = Some layer ->
  length m = D ->
  s_t_contract B D layer ->
  shape B D x -> length ld = B ->
  exists x_masked s t x' y' : batch,
    top Rmult x (row m) = Ok x_masked /\
    call layer x_masked = (s, t) /\
    forward_body self i (x, ld) = Ok (x', zip_with Rplus ld (reduce_sum s)) /\
    inverse_body self i (x, ld) = Ok (y', zip_with Rminus ld (reduce_sum s)).
Proof.
  intros Hm Hl Hlen Hnet Hx Hld.
  destruct (step_results self B D i m layer Hm Hl Hlen Hnet x ld Hx Hld)
    as (xm & s & t & Hxm & Hcall & Hf & Hi).
  by eexists xm, s, t, _, _.
Qed.

Lemma affine_on_unmasked_witness :
  exists x_masked s t : batch,
    top Rmult [[1; 2]; [3; 4]] (row [0; 1]) = Ok x_masked /\
    call echo_net x_masked = (s, t) /\
    (exists x' ld',
       forward_body echo_flow 0 ([[1; 2]; [3; 4]], [0; 0]) = Ok (x', ld') /\
       forall b j, (b < 2)%nat -> (j < 2)%nat -> coord [0; 1] j = 0 ->
         ent x' b j
         = ent [[1; 2]; [3; 4]] b j * exp (ent s b j) + ent t b j) /\
    (exists y' ld',
       inverse_body echo_flow 0 ([[1; 2]; [3; 4]], [0; 0]) = Ok (y', ld') /\
       forall b j, (b < 2)%nat -> (j < 2)%nat -> coord [0; 1] j = 0 ->
         ent y' b j
         = (ent [[1; 2]; [3; 4]] b j - ent t b j) * exp (- ent s b j)).
Proof.
  apply (affine_on_unmasked 2 2 echo_flow 0%nat [0; 1] echo_net).
  - reflexivity.
  - reflexivity.
  - reflexivity.
  - apply echo_net_contract.
  - split; [reflexivity|].
    repeat (apply Forall_cons_2; [reflexivity|]). apply Forall_nil_2.
  - reflexivity.
Defined.

Lemma log_det_term_witness :
  exists x_masked s t x' y' : batch,
    top Rmult [[1; 2]; [3; 4]] (row [0; 1]) = Ok x_masked /\
    call echo_net x_masked = (s, t) /\
    forward_body echo_flow 0 ([[1; 2]; [3; 4]], [0; 0])
    = Ok (x', zip_with Rplus [0; 0] (reduce_sum s)) /\
    inverse_body echo_flow 0 ([[1; 2]; [3; 4]], [0; 0])
    = Ok (y', zip_with Rminus [0; 0] (reduce_sum s)).
Proof.
  apply (log_det_term 2 2 echo_flow 0%nat [0; 1] echo_net).
  - reflexivity.
  - reflexivity.
  - reflexivity.
  - apply echo_net_contract.
  - split; [reflexivity|].
    repeat (apply Forall_cons_2; [reflexivity|]). apply Forall_nil_2.
  - reflexivity.
Defined.

(** ** The flow of the script *)

Lemma length_join_pairs {A : Type} (a b : A) k :
  length (mjoin (replicate k [a; b])) = (2 * k)%nat.
Proof.
  induction k as [|k IH]; [done|].
  change (length ([a; b] ++ mjoin (replicate k [a; b])) = (2 * S k)%nat).
  rewrite length_app, IH. cbn. lia.
Qed.

Lemma lookup_join_pairs {A : Type} (a b : A) k i :
  (i < 2 * k)%nat ->
  mjoin (replicate k [a; b]) !! i = Some (if Nat.even i then a else b).
Proof.
  revert i. induction k as [|k IH]; intros i Hi; [lia|].
  destruct i as [|[|i]]; [done..|].
  cbn [replicate mjoin list_join app lookup list_lookup].
  change (mjoin (replicate k [a; b]) !! i
          = Some (if Nat.even i then a else b)).
  apply IH. lia.
Qed.

Lemma script_masks_spec (num_cl : nat) :
  length (script_masks num_cl) = (2 * (num_cl / 2))%nat /\
  forall i, (i < 2 * (num_cl / 2))%nat ->
    script_masks num_cl !! i
    = Some (if Nat.even i then [0; 1] else [1; 0]).
Proof.
  unfold script_masks. split; [apply length_join_pairs|].
  intros i Hi. by apply lookup_join_pairs.
Qed.

(** X9. The script builds [2 * (num_cl // 2)] masks, so one fewer than
    [num_cl] when [num_cl] is odd, and they alternate: mask [i] is
    [[0, 1]] for even [i] and [[1, 0]] for odd [i]. *)
Theorem script_masks_alternate (num_cl : nat) :
  length (script_masks num_cl) = (2 * (num_cl / 2))%nat /\
  forall i, (i < 2 * (num_cl / 2))%nat ->
    script_masks num_cl !! i
    = Some (if Nat.even i then [0; 1] else [1; 0]).
Proof. apply script_masks_spec. Qed.

Lemma script_masks_alternate_witness :
  script_masks 7 !! 5%nat = Some [1; 0].
Proof.
  apply (proj2 (script_masks_alternate 7) 5%nat). cbn. lia.
Defined.

Lemma script_masks_well_formed B num_cl (nets : list s_t) :
  length nets = num_cl ->
  Forall (s_t_contract B 2) nets ->
  well_formed B 2 nets (script_masks num_cl).
Proof.
  intros Hlen Hnet.
  destruct (script_masks_spec num_cl) as [Hl Hi].
  split_and!; [| | |done].
  - apply Forall_lookup. intros i m Hm.
    rewrite Hi in Hm by (rewrite <- Hl; by eapply lookup_lt_Some).
    injection Hm as <-. destruct (Nat.even i); binary_mask.
  - apply Forall_lookup. intros i m Hm.
    rewrite Hi in Hm by (rewrite <- Hl; by eapply lookup_lt_Some).
    injection Hm as <-. by destruct (Nat.even i).
  - rewrite Hl, Hlen. pose proof (Nat.div_mod_eq num_cl 2). lia.
Qed.

Lemma script_flow_inverts (num_cl : nat) (nets : list s_t) distr0 self
    (x : batch) :
  length nets = num_cl ->
  realnvp_init nets (script_masks num_cl) distr0 = Ok self ->
  Forall (s_t_contract (length x) 2) nets ->
  Forall (fun r : vec => length r = 2%nat) x ->
  (exists z ld, forward self x = Ok (z, ld) /\
                inverse self z = Ok (x, Ropp <$> ld)) /\
  (exists z ld, inverse self x = Ok (z, ld) /\
                forward self z = Ok (x, Ropp <$> ld)).
Proof.
  intros Hlen Hinit Hnet Hx%shape_here.
  pose proof (script_masks_well_formed (length x) num_cl nets Hlen Hnet)
    as Hwf.
  split.
  - destruct (forward_inverse_flow _ _ _ _ _ _ x Hinit Hwf Hx)
      as (z & dl & _ & Hf & Hi).
    exists z, (tab (length x) dl). split; [done|].
    by rewrite fmap_tab.
  - destruct (inverse_forward_flow _ _ _ _ _ _ x Hinit Hwf Hx)
      as (z & dl & _ & Hi & Hf).
    exists z, (tab (length x) (fun b => - dl b)). split; [done|].
    rewrite fmap_tab, Hf. do 2 f_equal. apply tab_ext. intros; lra.
Qed.

(** X10. The flow of the script, for every [num_cl], odd ones included,
    with [num_cl] feature networks that keep the shape of their input, on
    every batch of dimension 2: [inverse] undoes [forward] and [forward]
    undoes [inverse], and the second pass returns the negated
    log-determinant of the first. *)
Theorem script_flow_round_trip (num_cl : nat) (nets : list s_t) distr0 self
    (x : batch) :
  length nets = num_cl ->
  realnvp_init nets (script_masks num_cl) distr0 = Ok self ->
  Forall (s_t_contract (length x) 2) nets ->
  Forall (fun r : vec => length r = 2%nat) x ->
  (exists z ld, forward self x = Ok (z, ld) /\
                inverse self z = Ok (x, Ropp <$> ld)) /\
  (exists z ld, inverse self x = Ok (z, ld) /\
                forward self z = Ok (x, Ropp <$> ld)).
Proof. apply script_flow_inverts. Qed.

Lemma script_flow_round_trip_witness :
  (exists z ld,
     forward {| num_cl := 6; distr := normal_diag; masks := script_masks 7;
                layers := replicate 7 echo_net |} [[1; 2]] = Ok (z, ld) /\
     inverse {| num_cl := 6; distr := normal_diag; masks := script_masks 7;
                layers := replicate 7 echo_net |} z
     = Ok ([[1; 2]], Ropp <$> ld)) /\
  (exists z ld,
     inverse {| num_cl := 6; distr := normal_diag; masks := script_masks 7;
                layers := replicate 7 echo_net |} [[1; 2]] = Ok (z, ld) /\
     forward {| num_cl := 6; distr := normal_diag; masks := script_masks 7;
                layers := replicate 7 echo_net |} z
     = Ok ([[1; 2]], Ropp <$> ld)).
Proof.
  apply (script_flow_round_trip 7 (replicate 7 echo_net) normal_diag).
  - reflexivity.
  - reflexivity.
  - apply Forall_replicate, echo_net_contract.
  - apply Forall_cons_2; [reflexivity|apply Forall_nil_2].
Defined.

(** ** The feature network [s_t] *)

Lemma forM_Ok {X C : Type} (g : X -> result C) (h : X -> C) (xs : list X) :
  (forall x, x ∈ xs -> g x = Ok (h x)) -> forM g xs = Ok (h <$> xs).
Proof.
  induction xs as [|x xs IH]; intros Hg; [done|].
  cbn [forM]. rewrite Hg by apply list_elem_of_here. rewrite bind_Ok.
  rewrite IH; [done|]. intros y Hy. apply Hg. by apply list_elem_of_further.
Qed.

Lemma broadcast_row {A B C : Type} (f : A -> B -> result C) (xs : list A)
    (y : B) :
  broadcast f xs [y] = forM (fun x => f x y) xs.
Proof.
  unfold broadcast. destruct xs as [|x [|x' xs]]; [done| |done].
  cbn. by destruct (f x y).
Qed.

Lemma vop_same_length op (a b : vec) :
  length a = length b -> vop op a b = Ok (zip_with op a b).
Proof.
  intros Hab. rewrite (tab_of_vec (length a) a eq_refl) at 1 2.
  rewrite (tab_of_vec (length a) b (eq_sym Hab)) at 1 2.
  by rewrite vop_tab, zip_with_tab.
Qed.

Lemma length_matvec n (r : vec) (W : list vec) :
  Forall (fun w : vec => length w = n) W -> length (matvec n r W) = n.
Proof.
  unfold matvec. revert W. induction r as [|v r IH]; intros W HW.
  - cbn. apply length_replicate.
  - destruct W as [|w W]; [apply length_replicate|].
    apply Forall_cons in HW as [Hw HW]. cbn [zip zip_with foldr fst snd].
    rewrite length_zip_with, length_fmap, Hw.
    change (zip_with pair r W) with (zip r W). rewrite (IH W HW). lia.
Qed.

Section dense.
Context (u : nat) (act : R -> R) (input_dim : nat) (l : Dense).
Hypothesis Hl : is_dense u act input_dim l.

Lemma length_dense_row (r : vec) : length (dense_row l r) = u.
Proof.
  destruct Hl as (Hu & _ & _ & HW & Hb). unfold dense_row.
  rewrite length_fmap, length_zip_with, Hu, length_matvec, Hb by done. lia.
Qed.

Lemma dense_call_rows B (x : batch) :
  shape B input_dim x ->
  dense_call l x = Ok (dense_row l <$> x) /\
  shape B u (dense_row l <$> x).
Proof.
  intros [HB Hx]. destruct Hl as (Hu & Ha & Hk & HW & Hb). split.
  - unfold dense_call, matmul.
    rewrite (forM_Ok _ (fun r => matvec (units l) r (kernel l))).
    2:{ intros r Hr. rewrite Forall_forall in Hx.
        by rewrite decide_True by (by rewrite (Hx r Hr), Hk). }
    rewrite bind_Ok. unfold top, row. rewrite broadcast_row.
    rewrite (forM_Ok _ (fun r => zip_with Rplus r (bias l))).
    2:{ intros r Hr. apply vop_same_length.
        apply list_elem_of_fmap in Hr as (r' & -> & _).
        by rewrite Hu, length_matvec, Hb. }
    rewrite bind_Ok. unfold tmap.
    by rewrite <- !list_fmap_compose.
  - split; [by rewrite length_fmap|].
    apply Forall_fmap, Forall_forall. intros r _. apply length_dense_row.
Qed.
End dense.

Lemma s_t_call_rows input_dim input_shape nweights (self : s_t_net) B
    (x : batch) :
  s_t_built input_dim input_shape nweights self ->
  shape B input_dim x ->
  s_t_call self x = Ok (s_row self <$> x, t_row self <$> x) /\
  shape B input_shape (s_row self <$> x) /\
  shape B input_shape (t_row self <$> x).
Proof.
  intros (H1 & H2 & H3 & H4 & H5 & H6 & H7 & H8 & H9 & H10) Hx.
  destruct (dense_call_rows _ _ _ _ H1 B x Hx) as [E1 S1].
  destruct (dense_call_rows _ _ _ _ H2 B _ S1) as [E2 S2].
  destruct (dense_call_rows _ _ _ _ H3 B _ S2) as [E3 S3].
  destruct (dense_call_rows _ _ _ _ H4 B _ S3) as [E4 S4].
  destruct (dense_call_rows _ _ _ _ H5 B _ S4) as [E5 S5].
  destruct (dense_call_rows _ _ _ _ H6 B x Hx) as [E6 S6].
  destruct (dense_call_rows _ _ _ _ H7 B _ S6) as [E7 S7].
  destruct (dense_call_rows _ _ _ _ H8 B _ S7) as [E8 S8].
  destruct (dense_call_rows _ _ _ _ H9 B _ S8) as [E9 S9].
  destruct (dense_call_rows _ _ _ _ H10 B _ S9) as [E10 S10].
  rewrite <- !list_fmap_compose in S5, S10.
  split; [|by split].
  unfold s_t_call.
  rewrite E1, bind_Ok, E2, bind_Ok, E3, bind_Ok, E4, bind_Ok, E5, bind_Ok.
  rewrite E6, bind_Ok, E7, bind_Ok, E8, bind_Ok, E9, bind_Ok, E10, bind_Ok.
  by rewrite <- !list_fmap_compose.
Qed.

(** X11. A network created by [s_t(input_shape, nweights)] and built for
    inputs of dimension [input_dim] raises nothing on a batch of that
    dimension and returns [s] and [t] of shape [(B, input_shape)]. *)
Theorem s_t_call_shape input_dim input_shape nweights (self : s_t_net)
    (x : batch) :
  s_t_built input_dim input_shape nweights self ->
  Forall (fun r : vec => length r = input_dim) x ->
  exists s t : batch,
    s_t_call self x = Ok (s, t) /\
    shape (length x) input_shape s /\ shape (length x) input_shape t.
Proof.
  intros Hself Hx%shape_here.
  destruct (s_t_call_rows _ _ _ self _ x Hself Hx) as (E & Hs & Ht).
  by eexists _, _.
Qed.

(** X12. The network treats the samples of a batch one by one: on two
    batches put one after the other it returns its outputs on the first
    followed by its outputs on the second. *)
Theorem s_t_call_app input_dim input_shape nweights (self : s_t_net)
    (x1 x2 : batch) :
  s_t_built input_dim input_shape nweights self ->
  Forall (fun r : vec => length r = input_dim) x1 ->
  Forall (fun r : vec => length r = input_dim) x2 ->
  exists s1 t1 s2 t2 : batch,
    s_t_call self x1 = Ok (s1, t1) /\
    s_t_call self x2 = Ok (s2, t2) /\
    s_t_call self (x1 ++ x2) = Ok (s1 ++ s2, t1 ++ t2).
Proof.
  intros Hself H1 H2.
  pose proof (Forall_app_2 _ _ _ H1 H2) as H12.
  apply shape_here in H1, H2, H12.
  destruct (s_t_call_rows _ _ _ self _ x1 Hself H1) as (E1 & _).
  destruct (s_t_call_rows _ _ _ self _ x2 Hself H2) as (E2 & _).
  destruct (s_t_call_rows _ _ _ self _ _ Hself H12) as (E12 & _).
  eexists _, _, _, _. split; [apply E1|]. split; [apply E2|].
  by rewrite E12, !fmap_app.
Qed.

Lemma tanh_bounds (v : R) : -1 < tanh v < 1.
Proof.
  unfold tanh, sinh, cosh.
  pose proof (exp_pos v) as Ha. pose proof (exp_pos (- v)) as Hb.
  set (n := (exp v - exp (- v)) / 2). set (c := (exp v + exp (- v)) / 2).
  assert (0 < c) as Hc by (unfold c; lra).
  assert (n / c * c = n) as E by (field; lra).
  split; apply (Rmult_lt_reg_r c); try done; rewrite E; unfold n, c; lra.
Qed.

Lemma ent_tmap_bounds (f : R -> R) (z : batch) b j :
  (forall v, -1 < f v < 1) -> -1 < ent (tmap f z) b j < 1.
Proof.
  intros Hf. unfold ent, coord, tmap.
  rewrite (nth_lookup _ b), list_lookup_fmap.
  destruct (z !! b) as [r|]; cbn.
  - rewrite nth_lookup, list_lookup_fmap.
    destruct (r !! j) as [v|]; cbn; [apply Hf|lra].
  - destruct j; cbn; lra.
Qed.

Lemma scale_bounds_of_tanh (self : s_t_net) (x s t : batch) b j :
  activation (layer10 self) = tanh ->
  s_t_call self x = Ok (s, t) ->
  -1 < ent s b j < 1.
Proof.
  intros Hact. unfold s_t_call.
  destruct (dense_call (layer1 self) x) as [y1|]; [|done]; rewrite bind_Ok.
  destruct (dense_call (layer2 self) y1) as [y2|]; [|done]; rewrite bind_Ok.
  destruct (dense_call (layer3 self) y2) as [y3|]; [|done]; rewrite bind_Ok.
  destruct (dense_call (layer4 self) y3) as [y4|]; [|done]; rewrite bind_Ok.
  destruct (dense_call (layer5 self) y4) as [t'|]; [|done]; rewrite bind_Ok.
  destruct (dense_call (layer6 self) x) as [z1|]; [|done]; rewrite bind_Ok.
  destruct (dense_call (layer7 self) z1) as [z2|]; [|done]; rewrite bind_Ok.
  destruct (dense_call (layer8 self) z2) as [z3|]; [|done]; rewrite bind_Ok.
  destruct (dense_call (layer9 self) z3) as [z4|]; [|done]; rewrite bind_Ok.
  unfold dense_call.
  destruct (matmul z4 _ _) as [m|]; [|done]; rewrite bind_Ok.
  destruct (top Rplus m _) as [a|]; [|done]; rewrite !bind_Ok.
  intros [= <- _]. rewrite Hact. apply ent_tmap_bounds, tanh_bounds.
Qed.

(** X13. Whatever its weights, every entry of the scale output of a
    network whose last scale layer has the [tanh] activation lies between
    -1 and 1, the ends included.  (Over the reals [tanh] never reaches the
    ends; in binary32 it is rounded to 1.0 or -1.0 for large arguments.) *)
Theorem s_t_scale_bounds (self : s_t_net) (x s t : batch) b j :
  activation (layer10 self) = tanh ->
  s_t_call self x = Ok (s, t) ->
  -1 <= ent s b j <= 1.
Proof.
  intros Hact Hcall.
  pose proof (scale_bounds_of_tanh self x s t b j Hact Hcall). lra.
Qed.

Lemma small_net_built : s_t_built 2 2 1 small_net.
Proof.
  unfold s_t_built, is_dense, small_net, small_dense; cbn.
  split_and!; try reflexivity;
    repeat (apply Forall_cons_2; [reflexivity|]); apply Forall_nil_2.
Qed.

Lemma s_t_call_shape_witness :
  exists s t : batch,
    s_t_call small_net [[1; 2]; [3; 4]] = Ok (s, t) /\
    shape 2 2 s /\ shape 2 2 t.
Proof.
  apply (s_t_call_shape 2 2 1 small_net [[1; 2]; [3; 4]]).
  - apply small_net_built.
  - repeat (apply Forall_cons_2; [reflexivity|]). apply Forall_nil_2.
Defined.

Lemma s_t_call_app_witness :
  exists s1 t1 s2 t2 : batch,
    s_t_call small_net [[1; 2]] = Ok (s1, t1) /\
    s_t_call small_net [[3; 4]; [5; 6]] = Ok (s2, t2) /\
    s_t_call small_net ([[1; 2]] ++ [[3; 4]; [5; 6]])
    = Ok (s1 ++ s2, t1 ++ t2).
Proof.
  apply (s_t_call_app 2 2 1 small_net).
  - apply small_net_built.
  - repeat (apply Forall_cons_2; [reflexivity|]). apply Forall_nil_2.
  - repeat (apply Forall_cons_2; [reflexivity|]). apply Forall_nil_2.
Defined.

(** ** The log-determinant of a flow of [s_t] networks *)

Lemma sum_tab_bounds n (g : nat -> R) :
  (forall j, (j < n)%nat -> -1 < g j < 1) ->
  Rabs (foldr Rplus 0 (tab n g)) <= INR n.
Proof.
  revert g. induction n as [|n IH]; intros g Hg.
  - cbn. rewrite Rabs_R0. lra.
  - rewrite tab_S, S_INR. cbn [foldr].
    eapply Rle_trans; [apply Rabs_triang|].
    pose proof (Hg 0%nat ltac:(lia)) as H0.
    assert (Rabs (g 0%nat) <= 1) as Hg0 by (apply Rabs_le; lra).
    assert (Rabs (foldr Rplus 0 (tab n (fun i => g (S i)))) <= INR n) as Hn.
    { apply IH. intros j Hj. apply Hg. lia. }
    lra.
Qed.

Section loop_bounded.
Context (self : realnvp) (B D : nat).

Lemma body_bounded i (x : batch) :
  bounded_index self B D i -> shape B D x ->
  exists (dl : nat -> R),
    (forall b, (b < B)%nat -> Rabs (dl b) <= INR D) /\
    (exists x', shape B D x' /\ forall a : nat -> R,
       forward_body self i (x, tab B a)
       = Ok (x', tab B (fun b => a b + dl b))) /\
    (exists y', shape B D y' /\ forall a : nat -> R,
       inverse_body self i (x, tab B a)
       = Ok (y', tab B (fun b => a b - dl b))).
Proof.
  intros (m & layer & Hm & Hlen & Hl & Hnet & Hbd) Hx.
  destruct (call_shape B D m layer Hnet x Hx) as (s & t & Hcall).
  rewrite (tab_of_vec D m Hlen) in Hm.
  exists (row_sum D (ent s)). split_and!.
  - intros b Hb. apply sum_tab_bounds. intros j Hj.
    pose proof (Hbd _ b j (shape_tab2 B D
                  (masked_entry (coord m) (ent x)))) as H.
    rewrite Hcall in H. cbn [fst] in H. by rewrite ent_tab2 in H.
  - eexists. split; [apply shape_tab2|]. intros a.
    rewrite (tab2_of_shape B D x Hx) at 1.
    by apply (forward_body_tab self i B D layer (coord m)).
  - eexists. split; [apply shape_tab2|]. intros a.
    rewrite (tab2_of_shape B D x Hx) at 1.
    by apply (inverse_body_tab self i B D layer (coord m)).
Qed.

Lemma forward_loop_bounded (idx : list nat) :
  Forall (bounded_index self B D) idx ->
  forall x : batch, shape B D x ->
  exists (x' : batch) (dl : nat -> R),
    shape B D x' /\
    (forall b, (b < B)%nat -> Rabs (dl b) <= INR (length idx) * INR D) /\
    forall a : nat -> R,
      for_loop (forward_body self) idx (x, tab B a)
        = Ok (x', tab B (fun b => a b + dl b)).
Proof.
  induction 1 as [|i idx Hi _ IH]; intros x Hx.
  - exists x, (fun _ => 0). split; [done|]. split.
    + intros b _. rewrite Rabs_R0. cbn. lra.
    + intros a. cbn. do 2 f_equal. apply tab_ext. intros; lra.
  - destruct (body_bounded i x Hi Hx)
      as (d1 & Hd1 & (x1 & Hx1 & Hstep) & _).
    destruct (IH x1 Hx1) as (x' & d' & Hx' & Hd' & Hloop).
    exists x', (fun b => d1 b + d' b). split; [done|]. split.
    + intros b Hb. cbn [length]. rewrite S_INR.
      eapply Rle_trans; [apply Rabs_triang|].
      specialize (Hd1 b Hb). specialize (Hd' b Hb). lra.
    + intros a. cbn [for_loop]. rewrite Hstep, bind_Ok, Hloop.
      do 2 f_equal. apply tab_ext. intros; lra.
Qed.

Lemma inverse_loop_bounded (idx : list nat) :
  Forall (bounded_index self B D) idx ->
  forall x : batch, shape B D x ->
  exists (x' : batch) (dl : nat -> R),
    shape B D x' /\
    (forall b, (b < B)%nat -> Rabs (dl b) <= INR (length idx) * INR D) /\
    forall a : nat -> R,
      for_loop (inverse_body self) idx (x, tab B a)
        = Ok (x', tab B (fun b => a b - dl b)).
Proof.
  induction 1 as [|i idx Hi _ IH]; intros x Hx.
  - exists x, (fun _ => 0). split; [done|]. split.
    + intros b _. rewrite Rabs_R0. cbn. lra.
    + intros a. cbn. do 2 f_equal. apply tab_ext. intros; lra.
  - destruct (body_bounded i x Hi Hx)
      as (d1 & Hd1 & _ & (x1 & Hx1 & Hstep)).
    destruct (IH x1 Hx1) as (x' & d' & Hx' & Hd' & Hloop).
    exists x', (fun b => d1 b + d' b). split; [done|]. split.
    + intros b Hb. cbn [length]. rewrite S_INR.
      eapply Rle_trans; [apply Rabs_triang|].
      specialize (Hd1 b Hb). specialize (Hd' b Hb). lra.
    + intros a. cbn [for_loop]. rewrite Hstep, bind_Ok, Hloop.
      do 2 f_equal. apply tab_ext. intros; lra.
Qed.
End loop_bounded.

Lemma implements_contract B D nweights (layer : s_t) (net : s_t_net) :
  s_t_built D D nweights net -> implements B D layer net ->
  s_t_contract B D layer /\ scale_bounded B D layer.
Proof.
  intros Hnet Himp. split.
  - intros x Hx.
    destruct (s_t_call_rows _ _ _ net B x Hnet Hx) as (E & Hs & Ht).
    rewrite (Himp x Hx) in E. injection E as ->. by split.
  - intros x b j Hx.
    apply (scale_bounds_of_tanh net x _ (call layer x).2).
    + apply Hnet.
    + rewrite (Himp x Hx). by destruct (call layer x).
Qed.

Lemma as_layer_implements B D input_shape nweights (net : s_t_net) :
  s_t_built D input_shape nweights net -> implements B D (as_layer net) net.
Proof.
  intros Hnet x Hx. cbn.
  destruct (s_t_call_rows _ _ _ net B x Hnet Hx) as (E & _).
  by rewrite E.
Qed.

Lemma Forall_tab {A : Type} (P : A -> Prop) n (g : nat -> A) :
  (forall i, (i < n)%nat -> P (g i)) -> Forall P (tab n g).
Proof.
  intros Hg. unfold tab. apply Forall_fmap, Forall_forall.
  intros i Hi. apply elem_of_seq in Hi. apply Hg. lia.
Qed.

(** X14. In a flow whose feature networks are [s_t] networks built for
    dimension [D], on a batch of dimension [D]: [forward] and [inverse]
    raise nothing and the log-determinant they return is at most
    [num_cl * D] in absolute value for every sample, because every scale
    output passes through [tanh]. *)
Theorem log_det_bounded D nweights (layers0 : list s_t)
    (nets : list s_t_net) masks0 distr0 self (x : batch) :
  realnvp_init layers0 masks0 distr0 = Ok self ->
  Forall (fun m : vec => length m = D) masks0 ->
  (length masks0 <= length layers0)%nat ->
  Forall2 (implements (length x) D) layers0 nets ->
  Forall (s_t_built D D nweights) nets ->
  Forall (fun r : vec => length r = D) x ->
  (exists z ld, forward self x = Ok (z, ld) /\
     Forall (fun v => Rabs v <= INR (num_cl self) * INR D) ld) /\
  (exists z ld, inverse self x = Ok (z, ld) /\
     Forall (fun v => Rabs v <= INR (num_cl self) * INR D) ld).
Proof.
  intros Hinit Hlen Hle Himp Hnets Hx%shape_here.
  assert (Forall (bounded_index self (length x) D) (seq 0 (num_cl self)))
    as Hidx.
  { injection Hinit as <-. cbn [num_cl].
    apply Forall_forall. intros i Hi. apply elem_of_seq in Hi.
    destruct (lookup_lt_is_Some_2 masks0 i) as [m Hm]; [lia|].
    destruct (lookup_lt_is_Some_2 layers0 i) as [layer Hl]; [lia|].
    destruct (Forall2_lookup_l _ _ _ _ _ Himp Hl) as (net & Hn & Hi').
    rewrite Forall_lookup in Hnets. rewrite Forall_lookup in Hlen.
    destruct (implements_contract _ _ _ _ _ (Hnets _ _ Hn) Hi') as [Hc Hb].
    exists m, layer. cbn [masks layers]. split_and!; eauto. }
  assert (length (seq 0 (num_cl self)) = num_cl self) as Hn
    by apply length_seq.
  split.
  - destruct (forward_loop_bounded self _ D _ Hidx x Hx)
      as (z & dl & _ & Hdl & Hl).
    eexists z, _. unfold forward. rewrite zeros_tab, Hl. split; [done|].
    apply Forall_tab. intros b Hb. rewrite Rplus_0_l, <- Hn. by apply Hdl.
  - apply Forall_reverse in Hidx.
    destruct (inverse_loop_bounded self _ D _ Hidx x Hx)
      as (z & dl & _ & Hdl & Hl).
    eexists z, _. unfold inverse. rewrite zeros_tab, Hl. split; [done|].
    apply Forall_tab. intros b Hb.
    replace (0 - dl b) with (- dl b) by lra.
    rewrite Rabs_Ropp, <- Hn, <- length_reverse. by apply Hdl.
Qed.

Lemma log_det_bounded_witness :
  (exists z ld,
     forward {| num_cl := 2; distr := normal_diag; masks := toy_masks;
                layers := [as_layer small_net; as_layer small_net] |}
       [[1; 2]] = Ok (z, ld) /\
     Forall (fun v => Rabs v <= INR 2 * INR 2) ld) /\
  (exists z ld,
     inverse {| num_cl := 2; distr := normal_diag; masks := toy_masks;
                layers := [as_layer small_net; as_layer small_net] |}
       [[1; 2]] = Ok (z, ld) /\
     Forall (fun v => Rabs v <= INR 2 * INR 2) ld).
Proof.
  apply (log_det_bounded 2 1 [as_layer small_net; as_layer small_net]
           [small_net; small_net] toy_masks normal_diag
           {| num_cl := 2; distr := normal_diag; masks := toy_masks;
              layers := [as_layer small_net; as_layer small_net] |}
           [[1; 2]]).
  - reflexivity.
  - repeat (apply Forall_cons_2; [reflexivity|]). apply Forall_nil_2.
  - cbn. lia.
  - repeat (apply Forall2_cons_2;
              [apply (as_layer_implements _ 2 2 1), small_net_built|]).
    apply Forall2_nil_2.
  - repeat (apply Forall_cons_2; [apply small_net_built|]). apply Forall_nil_2.
  - apply Forall_cons_2; [reflexivity|apply Forall_nil_2].
Defined.

Lemma s_t_scale_bounds_witness :
  -1 <= ent (s_row small_net <$> [[1; 2]]) 0 1 <= 1.
Proof.
  apply (s_t_scale_bounds small_net [[1; 2]] _ (t_row small_net <$> [[1; 2]])).
  - reflexivity.
  - apply (s_t_call_rows 2 2 1 small_net 1 [[1; 2]]).
    + apply small_net_built.
    + split; [reflexivity|].
      apply Forall_cons_2; [reflexivity|apply Forall_nil_2].
Defined.

(** ** The model of the script *)

(** X15. The model the script builds, alternating masks and [num_cl]
    networks [s_t(2)] built for dimension 2, is invertible whatever the
    weights of the networks: on every batch of dimension 2, [inverse]
    undoes [forward] and [forward] undoes [inverse], and the second pass
    returns the negated log-determinant of the first. *)
Theorem script_model_inverts (num_cl nweights : nat) (layers0 : list s_t)
    (nets : list s_t_net) distr0 self (x : batch) :
  length layers0 = num_cl ->
  Forall2 (implements (length x) 2) layers0 nets ->
  Forall (s_t_built 2 2 nweights) nets ->
  realnvp_init layers0 (script_masks num_cl) distr0 = Ok self ->
  Forall (fun r : vec => length r = 2%nat) x ->
  (exists z ld, forward self x = Ok (z, ld) /\
                inverse self z = Ok (x, Ropp <$> ld)) /\
  (exists z ld, inverse self x = Ok (z, ld) /\
                forward self z = Ok (x, Ropp <$> ld)).
Proof.
  intros Hlen Himp Hnets Hinit Hx.
  apply (script_flow_inverts num_cl layers0 distr0); [done..| |done].
  apply Forall_lookup. intros i layer Hl.
  destruct (Forall2_lookup_l _ _ _ _ _ Himp Hl) as (net & Hn & Hi).
  rewrite Forall_lookup in Hnets.
  by destruct (implements_contract _ _ _ _ _ (Hnets _ _ Hn) Hi).
Qed.

Lemma script_model_inverts_witness :
  (exists z ld,
     forward {| num_cl := 2; distr := normal_diag; masks := script_masks 3;
                layers := replicate 3 (as_layer small_net) |} [[1; 2]]
     = Ok (z, ld) /\
     inverse {| num_cl := 2; distr := normal_diag; masks := script_masks 3;
                layers := replicate 3 (as_layer small_net) |} z
     = Ok ([[1; 2]], Ropp <$> ld)) /\
  (exists z ld,
     inverse {| num_cl := 2; distr := normal_diag; masks := script_masks 3;
                layers := replicate 3 (as_layer small_net) |} [[1; 2]]
     = Ok (z, ld) /\
     forward {| num_cl := 2; distr := normal_diag; masks := script_masks 3;
                layers := replicate 3 (as_layer small_net) |} z
     = Ok ([[1; 2]], Ropp <$> ld)).
Proof.
  apply (script_model_inverts 3 1 (replicate 3 (as_layer small_net))
           (replicate 3 small_net) normal_diag).
  - reflexivity.
  - repeat (apply Forall2_cons_2;
              [apply (as_layer_implements _ 2 2 1), small_net_built|]).
    apply Forall2_nil_2.
  - apply Forall_replicate, small_net_built.
  - reflexivity.
  - apply Forall_cons_2; [reflexivity|apply Forall_nil_2].
Defined.

(** * The flow in binary32 arithmetic: proofs *)

(** ** Products with 1.0 and with 0.0 *)

Lemma fmul_one_finite s m e :
  bounded 24 128 m e = true ->
  fmul (S754_finite s m e) f32_one = S754_finite s m e.
Proof.
  intros Hb. apply andb_prop in Hb as [Hc He].
  unfold canonical_mantissa in Hc. apply Z.eqb_eq in Hc.
  unfold fmul, f32_one, SFmul.
  rewrite Pos.mul_comm.
  change (Pos.mul 8388608 m) with (Pos.iter xO m 23).
  rewrite xorb_false_r.
  unfold binary_round_aux, shr_fexp.
  assert (Zdigits2 (Z.pos (Pos.iter xO m 23))
          = (Z.pos (digits2_pos m) + 23)%Z) as Hd by (cbn; lia).
  rewrite Hd.
  replace (Z.pos (digits2_pos m) + 23 + (e + -23))%Z
    with (Z.pos (digits2_pos m) + e)%Z by lia.
  rewrite Hc.
  replace (e - (e + -23))%Z with 23%Z by lia.
  cbn [shr shr_record_of_loc].
  change (SpecFloat.iter_pos shr_1 23
            {| shr_m := Z.pos (Pos.iter xO m 23);
               shr_r := false; shr_s := false |})
    with {| shr_m := Z.pos m; shr_r := false; shr_s := false |}.
  cbn [shr_m loc_of_shr_record round_nearest_even Zdigits2].
  replace (e + -23 + 23)%Z with e by lia.
  rewrite Hc, Z.sub_diag. cbn [shr shr_m]. by rewrite He.
Qed.

Lemma fmul_one (x : f32) :
  valid32 x -> is_finite32 x -> fmul x f32_one = x.
Proof.
  destruct x as [s| | |s m e]; intros Hv Hf; try done.
  - by destruct s.
  - by apply fmul_one_finite.
Qed.

Lemma fmul_zero_r (x : f32) :
  is_finite32 x -> is_zero32 (fmul x f32_zero).
Proof. by destruct x. Qed.

Lemma fmul_zero_l (x : f32) :
  is_finite32 x -> is_zero32 (fmul f32_zero x).
Proof. by destruct x. Qed.

Lemma fsub_one_one : fsub f32_one f32_one = f32_zero.
Proof. reflexivity. Qed.

Lemma fsub_one_zero : fsub f32_one f32_zero = f32_one.
Proof. reflexivity. Qed.

(** ** One entry at a coordinate where the mask is 1.0 *)

Section masked_entry32.
Context (mu : nat -> f32) (g sigma tau : nat -> nat -> f32) (b j : nat).
Hypothesis Hmu : mu j = f32_one.
Hypothesis Hvalid : valid32 (g b j).
Hypothesis Hg : is_finite32 (g b j).
Hypothesis Htau : is_finite32 (tau b j).

Lemma forward_entry32_finite :
  is_finite32 (fmul (g b j) (exp32 (sigma b j))) ->
  num_eq32 (forward_entry32 mu g sigma tau b j) (g b j).
Proof.
  unfold forward_entry32. rewrite Hmu, fsub_one_one.
  rewrite (fmul_one _ Hvalid Hg).
  destruct (fmul (g b j) (exp32 (sigma b j))) as [sp| | |sp mp ep];
    intros Hp; try done;
    destruct (tau b j) as [st| | |st mt et]; try done;
    destruct (g b j) as [sg| | |sg mg eg]; try done;
    repeat match goal with s : bool |- _ => destruct s end;
    cbn; (by left) || (by right).
Qed.

Lemma forward_entry32_overflow :
  ~ is_finite32 (fmul (g b j) (exp32 (sigma b j))) ->
  forward_entry32 mu g sigma tau b j = S754_nan.
Proof.
  unfold forward_entry32. rewrite Hmu, fsub_one_one.
  rewrite (fmul_one _ Hvalid Hg).
  destruct (fmul (g b j) (exp32 (sigma b j))) as [sp| | |sp mp ep];
    intros Hp; try (by destruct Hp);
    destruct (g b j) as [sg| | |sg mg eg]; try done.
Qed.

Lemma inverse_entry32_finite :
  is_finite32 (sigma b j) ->
  num_eq32 (inverse_entry32 mu g sigma tau b j) (g b j).
Proof.
  intros Hs. unfold inverse_entry32. rewrite Hmu, fsub_one_one.
  rewrite (fmul_one _ Hvalid Hg).
  destruct (sigma b j) as [ss| | |ss ms es]; try done;
    destruct (tau b j) as [st| | |st mt et]; try done;
    destruct (g b j) as [sg| | |sg mg eg]; try done;
    repeat match goal with s : bool |- _ => destruct s end;
    cbn; (by left) || (by right).
Qed.
End masked_entry32.

(** ** Tabulated tensors of any entries *)

Section generic_tensors.
Context {A : Type} (d : A).

Lemma gtab2_ext B D (g h : nat -> nat -> A) :
  (forall b j, (b < B)%nat -> (j < D)%nat -> g b j = h b j) ->
  gtab2 B D g = gtab2 B D h.
Proof.
  intros Hgh. unfold gtab2. apply tab_ext. intros b Hb.
  apply tab_ext. intros j Hj. by apply Hgh.
Qed.

Lemma gshape_tab2 B D (g : nat -> nat -> A) : gshape B D (gtab2 B D g).
Proof.
  split; [apply length_tab|].
  unfold gtab2, tab. apply Forall_fmap, Forall_forall. intros b _.
  apply (length_tab D (g b)).
Qed.

Lemma gtab2_of_shape B D (x : list (list A)) :
  gshape B D x -> x = gtab2 B D (fun b j => nth j (nth b x []) d).
Proof.
  intros [<- Hrows]. unfold gtab2.
  rewrite (tab_of_list [] x) at 1. apply tab_ext. intros b Hb.
  assert (length (nth b x []) = D) as <-.
  { rewrite Forall_forall in Hrows. apply Hrows.
    apply list_elem_of_In, nth_In, Hb. }
  apply tab_of_list.
Qed.

Lemma nth_gtab2 B D (f : nat -> nat -> A) b j :
  (b < B)%nat -> (j < D)%nat -> nth j (nth b (gtab2 B D f) []) d = f b j.
Proof.
  intros Hb Hj. unfold gtab2.
  rewrite (nth_lookup _ b), lookup_tab by done. cbn.
  by rewrite nth_lookup, lookup_tab.
Qed.

Lemma gvop_tab (op : A -> A -> A) D (g h : nat -> A) :
  gvop op (tab D g) (tab D h) = Ok (tab D (fun j => op (g j) (h j))).
Proof. unfold gvop. by apply broadcast_tab. Qed.

Lemma gtop_tab (op : A -> A -> A) B D (g h : nat -> nat -> A) :
  gtop op (gtab2 B D g) (gtab2 B D h)
  = Ok (gtab2 B D (fun b j => op (g b j) (h b j))).
Proof.
  unfold gtop, gtab2. apply broadcast_tab. intros b _. apply gvop_tab.
Qed.

Lemma gtop_tab_row_r (op : A -> A -> A) B D (g : nat -> nat -> A)
    (mu : nat -> A) :
  gtop op (gtab2 B D g) (grow (tab D mu))
  = Ok (gtab2 B D (fun b j => op (g b j) (mu j))).
Proof.
  unfold gtop, gtab2, grow. apply broadcast_tab_r. intros b _.
  apply gvop_tab.
Qed.

Lemma gtop_tab_row_l (op : A -> A -> A) B D (mu : nat -> A)
    (g : nat -> nat -> A) :
  gtop op (grow (tab D mu)) (gtab2 B D g)
  = Ok (gtab2 B D (fun b j => op (mu j) (g b j))).
Proof.
  unfold gtop, gtab2, grow. apply broadcast_tab_l. intros b _.
  apply gvop_tab.
Qed.

Lemma gmap2_tab (f : A -> A) B D (g : nat -> nat -> A) :
  gmap2 f (gtab2 B D g) = gtab2 B D (fun b j => f (g b j)).
Proof.
  unfold gmap2, gtab2. rewrite fmap_tab. apply tab_ext. intros b _.
  by rewrite fmap_tab.
Qed.
End generic_tensors.

Lemma freduce_sum_tab B D (g : nat -> nat -> f32) :
  freduce_sum (gtab2 B D g)
  = tab B (fun b => foldl fadd f32_zero (tab D (g b))).
Proof. unfold freduce_sum, gtab2. by rewrite fmap_tab. Qed.

Create Rewrite HintDb tensor32.
#[local] Hint Rewrite @bind_Ok @fmap_tab @gtop_tab @gtop_tab_row_r
  @gtop_tab_row_l @gmap2_tab freduce_sum_tab @gvop_tab : tensor32.

(** ** One coupling step in binary32, in closed form *)

Section coupling_step32.
Context (self : realnvp32) (i B D : nat) (layer : s_t32) (mu : nat -> f32).
Hypothesis Hmask : masks32 self !! i = Some (tab D mu).
Hypothesis Hlayer : layers32 self !! i = Some layer.

Lemma forward_body32_tab (g sigma tau : nat -> nat -> f32) (a : nat -> f32) :
  call32 layer (gtab2 B D (fun b j => fmul (g b j) (mu j)))
    = (gtab2 B D sigma, gtab2 B D tau) ->
  forward_body32 self i (gtab2 B D g, tab B a)
  = Ok (gtab2 B D (forward_entry32 mu g sigma tau),
        tab B (fun b => fadd (a b) (foldl fadd f32_zero (tab D (sigma b))))).
Proof.
  intros Hcall. unfold forward_body32, forward_expr32.
  rewrite (getitem_Some _ _ _ Hmask), (getitem_Some _ _ _ Hlayer).
  autorewrite with tensor32. rewrite Hcall. cbn iota beta.
  autorewrite with tensor32. reflexivity.
Qed.

Lemma inverse_body32_tab (g sigma tau : nat -> nat -> f32) (a : nat -> f32) :
  call32 layer (gtab2 B D (fun b j => fmul (g b j) (mu j)))
    = (gtab2 B D sigma, gtab2 B D tau) ->
  inverse_body32 self i (gtab2 B D g, tab B a)
  = Ok (gtab2 B D (inverse_entry32 mu g sigma tau),
        tab B (fun b => fsub (a b) (foldl fadd f32_zero (tab D (sigma b))))).
Proof.
  intros Hcall. unfold inverse_body32, inverse_expr32.
  rewrite (getitem_Some _ _ _ Hmask), (getitem_Some _ _ _ Hlayer).
  autorewrite with tensor32. rewrite Hcall. cbn iota beta.
  autorewrite with tensor32. reflexivity.
Qed.
End coupling_step32.

(** ** The exponential overflows *)

Lemma pow2_le_exp (n : nat) : 2 ^ n <= exp (INR n).
Proof.
  induction n as [|n IH].
  - cbn. rewrite exp_0. lra.
  - rewrite S_INR, exp_plus. cbn [pow].
    pose proof (exp_ineq1 1 ltac:(lra)) as H1.
    pose proof (exp_pos (INR n)) as Hn.
    assert (0 <= 2 ^ n) as H2 by (apply pow_le; lra).
    nra.
Qed.

Lemma B2R32_200 : B2R32 f32_200 = 200.
Proof.
  unfold B2R32, f32_200, powerRZ.
  replace (2 ^ Pos.to_nat 16) with 65536.
  - lra.
  - change (Pos.to_nat 16) with 16%nat. cbn [pow]. lra.
Qed.

Lemma exp32_200 : exp32 f32_200 = S754_infinity false.
Proof.
  change (exp32 f32_200) with (round32 (exp (B2R32 f32_200))).
  rewrite B2R32_200. unfold round32.
  pose proof (exp_pos 200) as Hpos.
  destruct (Req_dec_T (exp 200) 0) as [H0|_]; [lra|].
  destruct (Rlt_dec (exp 200) 0) as [Hneg|_]; [lra|].
  destruct (Rle_dec (powerRZ 2 128) (Rabs (exp 200))) as [_|Hsmall]; [done|].
  exfalso. apply Hsmall. rewrite Rabs_pos_eq by lra.
  change (powerRZ 2 128) with (2 ^ 128).
  replace 200 with (INR 200) by (rewrite INR_IZR_INZ; reflexivity).
  eapply Rle_trans; [|apply pow2_le_exp].
  apply Rle_pow; [lra|lia].
Qed.

(** ** Pass-through in binary32 *)

Lemma ftab_of_vec D (v : fvec) : length v = D -> v = tab D (fcoord v).
Proof. intros <-. apply tab_of_list. Qed.

Lemma ftab2_of_shape B D (x : fbatch) : gshape B D x -> x = gtab2 B D (fent x).
Proof. apply (gtab2_of_shape f32_zero). Qed.

Lemma fent_tab2 B D (f : nat -> nat -> f32) b j :
  (b < B)%nat -> (j < D)%nat -> fent (gtab2 B D f) b j = f b j.
Proof. apply (nth_gtab2 f32_zero). Qed.

Section step32.
Context (self : realnvp32) (B D i : nat) (m : fvec) (layer : s_t32).
Hypothesis Hmask : masks32 self !! i = Some m.
Hypothesis Hlayer : layers32 self !! i = Some layer.
Hypothesis Hlen : length m = D.
Hypothesis Hnet : s_t32_contract B D layer.

Lemma step32_results (x : fbatch) (ld : fvec) :
  gshape B D x -> length ld = B ->
  exists (x_masked s t : fbatch) (ld' ld'' : fvec),
    gtop fmul x (grow m) = Ok x_masked /\
    call32 layer x_masked = (s, t) /\
    forward_body32 self i (x, ld)
    = Ok (gtab2 B D (forward_entry32 (fcoord m) (fent x) (fent s) (fent t)),
          ld') /\
    inverse_body32 self i (x, ld)
    = Ok (gtab2 B D (inverse_entry32 (fcoord m) (fent x) (fent s) (fent t)),
          ld'').
Proof.
  intros Hx Hld.
  set (xm := gtab2 B D (fun b j => fmul (fent x b j) (fcoord m j))).
  destruct (call32 layer xm) as [s t] eqn:Hcall.
  destruct (Hnet xm (gshape_tab2 _ _ _)) as [Hs Ht].
  rewrite Hcall in Hs, Ht. cbn in Hs, Ht.
  rewrite (ftab2_of_shape B D s Hs), (ftab2_of_shape B D t Ht) in Hcall.
  pose proof Hmask as Hm'. rewrite (ftab_of_vec D m Hlen) in Hm'.
  exists xm, s, t,
    (tab B (fun b => fadd (fcoord ld b)
                       (foldl fadd f32_zero (tab D (fent s b))))),
    (tab B (fun b => fsub (fcoord ld b)
                       (foldl fadd f32_zero (tab D (fent s b))))).
  split_and!.
  - rewrite (ftab2_of_shape B D x Hx), (ftab_of_vec D m Hlen) at 1.
    by rewrite gtop_tab_row_r.
  - by rewrite Hcall, <- (ftab2_of_shape B D s Hs),
      <- (ftab2_of_shape B D t Ht).
  - rewrite (ftab2_of_shape B D x Hx), (ftab_of_vec B ld Hld) at 1.
    by apply (forward_body32_tab self i B D layer (fcoord m)).
  - rewrite (ftab2_of_shape B D x Hx), (ftab_of_vec B ld Hld) at 1.
    by apply (inverse_body32_tab self i B D layer (fcoord m)).
Qed.
End step32.

(** C5, in the arithmetic of the code.  In one coupling step with a binary
    mask [m], at a coordinate with [m_j = 1.0] where the input value and
    the network's outputs [s] and [t] are finite: the inverse step returns
    the input value; the forward step returns it when [x * exp(s)] is
    finite there, and NaN when [x * exp(s)] is not, as after an overflow.
    "Returns the input value" is equality as numbers: the same binary32
    value, or zeros. *)
Theorem pass_through_binary32 B D (self : realnvp32) i (m : fvec)
    (layer : s_t32) (x : fbatch) (ld : fvec) :
  masks32 self !! i = Some m ->
  layers32 self !! i = Some layer ->
  binary32 m -> length m = D ->
  s_t32_contract B D layer ->
  gshape B D x -> length ld = B ->
  exists (x_masked s t x' y' : fbatch) (ld' ld'' : fvec),
    gtop fmul x (grow m) = Ok x_masked /\
    call32 layer x_masked = (s, t) /\
    forward_body32 self i (x, ld) = Ok (x', ld') /\
    inverse_body32 self i (x, ld) = Ok (y', ld'') /\
    forall b j, (b < B)%nat -> (j < D)%nat -> fcoord m j = f32_one ->
      valid32 (fent x b j) -> is_finite32 (fent x b j) ->
      is_finite32 (fent s b j) -> is_finite32 (fent t b j) ->
      num_eq32 (fent y' b j) (fent x b j) /\
      (is_finite32 (fmul (fent x b j) (exp32 (fent s b j))) ->
       num_eq32 (fent x' b j) (fent x b j)) /\
      (~ is_finite32 (fmul (fent x b j) (exp32 (fent s b j))) ->
       fent x' b j = S754_nan).
Proof.
  intros Hm Hl _ Hlen Hnet Hx Hld.
  destruct (step32_results self B D i m layer Hm Hl Hlen Hnet x ld Hx Hld)
    as (xm & s & t & ld' & ld'' & Hxm & Hcall & Hf & Hi).
  exists xm, s, t. eexists _, _, ld', ld''.
  split; [done|]. split; [done|]. split; [apply Hf|]. split; [apply Hi|].
  intros b j Hb Hj Hmu Hv Hfx Hfs Hft. rewrite !fent_tab2 by done.
  split_and!.
  - by apply inverse_entry32_finite.
  - by apply forward_entry32_finite.
  - by apply forward_entry32_overflow.
Qed.

Lemma const_net32_contract B D (s0 c : fvec) :
  length s0 = D -> length c = D -> s_t32_contract B D (const_net32 s0 c).
Proof.
  intros Hs Hc x [Hlen _]. cbn.
  split; (split; [by rewrite length_fmap|]);
    apply Forall_fmap, Forall_forall; by intros.
Qed.

Lemma pass_through_binary32_witness :
  exists (x_masked s t x' y' : fbatch) (ld' ld'' : fvec),
    gtop fmul [[f32_one; f32_two]] (grow [f32_zero; f32_one])
      = Ok x_masked /\
    call32 (const_net32 [f32_zero; f32_200] [f32_zero; f32_zero]) x_masked
      = (s, t) /\
    forward_body32 overflow_flow32 0 ([[f32_one; f32_two]], [f32_zero])
      = Ok (x', ld') /\
    inverse_body32 overflow_flow32 0 ([[f32_one; f32_two]], [f32_zero])
      = Ok (y', ld'') /\
    forall b j, (b < 1)%nat -> (j < 2)%nat ->
      fcoord [f32_zero; f32_one] j = f32_one ->
      valid32 (fent [[f32_one; f32_two]] b j) ->
      is_finite32 (fent [[f32_one; f32_two]] b j) ->
      is_finite32 (fent s b j) -> is_finite32 (fent t b j) ->
      num_eq32 (fent y' b j) (fent [[f32_one; f32_two]] b j) /\
      (is_finite32 (fmul (fent [[f32_one; f32_two]] b j)
                      (exp32 (fent s b j))) ->
       num_eq32 (fent x' b j) (fent [[f32_one; f32_two]] b j)) /\
      (~ is_finite32 (fmul (fent [[f32_one; f32_two]] b j)
                        (exp32 (fent s b j))) ->
       fent x' b j = S754_nan).
Proof.
  apply (pass_through_binary32 1 2 overflow_flow32 0%nat
           [f32_zero; f32_one]
           (const_net32 [f32_zero; f32_200] [f32_zero; f32_zero])).
  - reflexivity.
  - reflexivity.
  - unfold binary32.
    apply Forall_cons_2; [by left|].
    apply Forall_cons_2; [by right|]. apply Forall_nil_2.
  - reflexivity.
  - by apply const_net32_contract.
  - split; [reflexivity|].
    apply Forall_cons_2; [reflexivity|apply Forall_nil_2].
  - reflexivity.
Defined.

(** C5 fails as stated.  Mask [[0, 1]], input [[1, 2]], network output
    [s = [0, 200]], [t = [0, 0]]: at the coordinate where the mask is 1 the
    input is 2.0, [2 * exp(200)] overflows, and the forward step returns
    NaN there. *)
Lemma pass_through_overflows :
  fcoord [f32_zero; f32_one] 1 = f32_one /\
  forward_body32 overflow_flow32 0 ([[f32_one; f32_two]], [f32_zero])
  = Ok ([[f32_one; S754_nan]], [f32_200]) /\
  ~ num_eq32 S754_nan f32_two.
Proof.
  split; [reflexivity|]. split.
  - unfold forward_body32, forward_expr32, overflow_flow32.
    cbn [masks32 layers32 getitem lookup list_lookup].
    rewrite !bind_Ok.
    change (gtop fmul [[f32_one; f32_two]] (grow [f32_zero; f32_one]))
      with (Ok (A:=fbatch) [[f32_zero; f32_two]]).
    rewrite !bind_Ok. unfold gmap2.
    cbn [call32 const_net32 fmap list_fmap].
    change (exp32 f32_zero) with f32_one. rewrite exp32_200.
    reflexivity.
  - intros [H|[H _]]; [discriminate|done].
Qed.

(** ** The end-to-end scenario in binary32 *)


